(** * gocui's tcell driver and lazygit's menu-candidate extractor

    A shallow embedding of [vendor/github.com/jesseduffield/gocui/tcell_driver.go]
    (the style encoder [getTcellStyle] and the event translator [pollEvent]
    with its click/drag state) and of the candidate extractor exercised by
    [pkg/gui/gui_test.go], followed by the properties the specification
    states about them. *)

From Stdlib Require Import ZArith Lia Bool Ascii String List.
From Stdlib Require Import DecimalNat DecimalString.
From stdpp Require Import base decidable countable gmap strings list.

#[local] Set Warnings "-clear-no-such-hyp".

Local Open Scope Z_scope.

(** ** Constants declared outside the driver

    The driver refers to constants of package [tcell] (key codes, modifier
    masks, button masks) and of package [gocui] (mouse keys, modifiers,
    attribute masks) and to the colour conversion [getTcellColor]; none of
    them is declared in tcell_driver.go.  They are parameters of the
    development: every theorem holds for all values that satisfy the
    assumptions it lists.

    Go's integer types (the 16-bit masks and key codes, [int] positions,
    [rune], the 64-bit [Attribute]) are read as [Z]: the driver compares
    them and takes bitwise conjunctions, and does no arithmetic that could
    wrap around. *)

Class Tcell := {
  (* tcell.Key *)
  tcell_KeyRune : Z;
  tcell_KeyCtrlSpace : Z;
  (* tcell.ModMask *)
  tcell_ModNone : Z;
  tcell_ModShift : Z;
  tcell_ModCtrl : Z;
  (* tcell.ButtonMask *)
  tcell_ButtonNone : Z;
  tcell_ButtonPrimary : Z;
  tcell_ButtonSecondary : Z;
  tcell_ButtonMiddle : Z;
  tcell_WheelUp : Z;
  tcell_WheelDown : Z;
  tcell_WheelLeft : Z;
  tcell_WheelRight : Z
}.

Class Gocui := {
  (* gocui.Key *)
  MouseLeft : Z;
  MouseRight : Z;
  MouseMiddle : Z;
  MouseRelease : Z;
  MouseWheelUp : Z;
  MouseWheelDown : Z;
  MouseWheelLeft : Z;
  MouseWheelRight : Z;
  (* gocui.Modifier *)
  ModNone : Z;
  ModMotion : Z;
  (* gocui.Attribute *)
  ColorDefault : Z;
  AttrBold : Z;
  AttrUnderline : Z;
  AttrReverse : Z;
  AttrBlink : Z;
  AttrDim : Z;
  AttrItalic : Z;
  AttrStrikeThrough : Z;
  (* func getTcellColor(c Attribute, omode OutputMode) tcell.Color *)
  getTcellColor : Z -> Z -> Z
}.

(** ** tcell.Style *)

Inductive StyleFlag :=
  | FlagBold | FlagUnderline | FlagReverse | FlagBlink
  | FlagDim | FlagItalic | FlagStrikeThrough.

#[global] Instance StyleFlag_eq_dec : EqDecision StyleFlag.
Proof. solve_decision. Defined.

Definition StyleFlag_code (f : StyleFlag) : nat :=
  match f with
  | FlagBold => 0 | FlagUnderline => 1 | FlagReverse => 2 | FlagBlink => 3
  | FlagDim => 4 | FlagItalic => 5 | FlagStrikeThrough => 6
  end%nat.

Definition StyleFlag_of_code (n : nat) : StyleFlag :=
  match n with
  | 0 => FlagBold | 1 => FlagUnderline | 2 => FlagReverse | 3 => FlagBlink
  | 4 => FlagDim | 5 => FlagItalic | _ => FlagStrikeThrough
  end%nat.

#[global] Instance StyleFlag_countable : Countable StyleFlag.
Proof.
  apply (inj_countable' StyleFlag_code StyleFlag_of_code).
  intros f. destruct f; reflexivity.
Defined.

Definition all_flags : list StyleFlag :=
  [FlagBold; FlagUnderline; FlagReverse; FlagBlink;
   FlagDim; FlagItalic; FlagStrikeThrough].

(** Modelled from the spec: the type [tcell.Style] and its methods are not
    in tcell_driver.go.  Section 4.2 describes a style as a default value
    with no colour and no flags, a foreground and a background colour that
    can be set, and flags that are "idempotent, commutative sets on the
    target style", any combination of which may be present. *)
Record Style := mkStyle {
  style_fg : option Z;
  style_bg : option Z;
  style_flags : gset StyleFlag
}.

(** Modelled from the spec: [tcell.StyleDefault], no colour, no flag. *)
Definition StyleDefault : Style := mkStyle None None ∅.

(** Modelled from the spec: [Style.Foreground], sets the foreground colour. *)
Definition Foreground (st : Style) (c : Z) : Style :=
  mkStyle (Some c) (style_bg st) (style_flags st).

(** Modelled from the spec: [Style.Background], sets the background colour. *)
Definition Background (st : Style) (c : Z) : Style :=
  mkStyle (style_fg st) (Some c) (style_flags st).

(** Modelled from the spec: the flag setters [Style.Bold], [Style.Underline],
    ..., which make one flag present ([on = true]) or absent and leave the
    colours and the other flags alone. *)
Definition setFlag (f : StyleFlag) (st : Style) (on : bool) : Style :=
  mkStyle (style_fg st) (style_bg st)
          (if on then style_flags st ∪ {[ f ]} else style_flags st ∖ {[ f ]}).

Definition Bold := setFlag FlagBold.
Definition Underline := setFlag FlagUnderline.
Definition Reverse := setFlag FlagReverse.
Definition Blink := setFlag FlagBlink.
Definition Dim := setFlag FlagDim.
Definition Italic := setFlag FlagItalic.
Definition StrikeThrough := setFlag FlagStrikeThrough.

(** ** The style encoder *)

Section Encoder.
Context {gc : Gocui}.

(** [attr&mask != 0] *)
Definition has_bits (attr mask : Z) : bool := negb (Z.land attr mask =? 0).

(* func setTcellFontEffectStyle(st tcell.Style, attr Attribute) tcell.Style *)
Definition setTcellFontEffectStyle (st : Style) (attr : Z) : Style :=
  let st := if has_bits attr AttrBold then Bold st true else st in
  let st := if has_bits attr AttrUnderline then Underline st true else st in
  let st := if has_bits attr AttrReverse then Reverse st true else st in
  let st := if has_bits attr AttrBlink then Blink st true else st in
  let st := if has_bits attr AttrDim then Dim st true else st in
  let st := if has_bits attr AttrItalic then Italic st true else st in
  let st := if has_bits attr AttrStrikeThrough then StrikeThrough st true else st in
  st.

(* func getTcellStyle(fg, bg Attribute, omode OutputMode) tcell.Style *)
Definition getTcellStyle (fg bg omode : Z) : Style :=
  let st := StyleDefault in
  let st :=
    if negb (fg =? ColorDefault) then
      let st := Foreground st (getTcellColor fg omode) in
      setTcellFontEffectStyle st fg
    else st in
  let st :=
    if negb (bg =? ColorDefault) then
      let st := Background st (getTcellColor bg omode) in
      setTcellFontEffectStyle st bg
    else st in
  st.

End Encoder.

(** ** Events *)

(* type gocuiEventType uint8, with its iota constants *)
Inductive gocuiEventType :=
  | eventNone | eventKey | eventResize | eventMouse
  | eventInterrupt | eventError | eventRaw.

(** A Go [error] value; [None] is [nil]. *)
Definition error := string.

(* type GocuiEvent struct *)
Record GocuiEvent := mkGocuiEvent {
  Type' : gocuiEventType;
  Mod : Z;
  Key : Z;
  Ch : Z;
  Width : Z;
  Height : Z;
  Err : option error;
  MouseX : Z;
  MouseY : Z;
  N' : Z
}.

(** The composite literal [GocuiEvent{Type: t}]: every other field has its
    zero value. *)
Definition GocuiEvent_of_type (t : gocuiEventType) : GocuiEvent :=
  mkGocuiEvent t 0 0 0 0 0 None 0 0 0.

(** The values [Screen.PollEvent()] can return, by dynamic type, each with
    what the driver reads from it: [Size()] of a resize event; [Key()],
    [Rune()] and [Modifiers()] of a key event; [Position()], [Buttons()]
    and [Modifiers()] of a mouse event.  [EventError] carries its cause;
    [EventOther] stands for every remaining type. *)
Inductive tcellEvent :=
  | EventInterrupt
  | EventResize (w h : Z)
  | EventKey (key rune mods : Z)
  | EventMouse (x y buttons mods : Z)
  | EventError (cause : error)
  | EventOther.

(** ** The click/drag state *)

Definition NOT_DRAGGING : Z := 0.
Definition MAYBE_DRAGGING : Z := 1.
Definition DRAGGING : Z := 2.

(** The package-level variables of the driver. *)
Record Globals := mkGlobals {
  lastMouseKey : Z;
  lastMouseMod : Z;
  dragState : Z;
  lastX : Z;
  lastY : Z
}.

Definition set_lastMouseKey (v : Z) (g : Globals) : Globals :=
  mkGlobals v (lastMouseMod g) (dragState g) (lastX g) (lastY g).
Definition set_lastMouseMod (v : Z) (g : Globals) : Globals :=
  mkGlobals (lastMouseKey g) v (dragState g) (lastX g) (lastY g).
Definition set_dragState (v : Z) (g : Globals) : Globals :=
  mkGlobals (lastMouseKey g) (lastMouseMod g) v (lastX g) (lastY g).
Definition set_lastX (v : Z) (g : Globals) : Globals :=
  mkGlobals (lastMouseKey g) (lastMouseMod g) (dragState g) v (lastY g).
Definition set_lastY (v : Z) (g : Globals) : Globals :=
  mkGlobals (lastMouseKey g) (lastMouseMod g) (dragState g) (lastX g) v.

(** ** The event translator *)

Section Translator.
Context {tc : Tcell} {gc : Gocui}.

(** The initial values of the package-level variables. *)
Definition initGlobals : Globals :=
  mkGlobals tcell_ButtonNone tcell_ModNone NOT_DRAGGING 0 0.

(** The [*tcell.EventKey] case of [pollEvent]. *)
Definition pollKey (key rune mods : Z) : GocuiEvent :=
  let k := key in
  let ch := 0 in
  let '(k, ch) :=
    if k =? tcell_KeyRune then
      let k := 0 in
      let ch := rune in
      if ch =? 32 (* ' ' *) then (32, 0) else (k, ch)
    else (k, ch) in
  let mod_ := mods in
  let '(mod_, ch, k) :=
    if (mod_ =? tcell_ModCtrl) && (k =? 32) then (0, 0, tcell_KeyCtrlSpace)
    else if (mod_ =? tcell_ModCtrl) || (mod_ =? tcell_ModShift) then (0, ch, k)
    else (mod_, ch, k) in
  mkGocuiEvent eventKey mod_ k ch 0 0 None 0 0 0.

(** The wheel tests at the head of the [*tcell.EventMouse] case: four
    independent [if]s, each overwriting [mouseKey]. *)
Definition wheelKey (button mouseKey : Z) : Z :=
  let mouseKey := if has_bits button tcell_WheelUp then MouseWheelUp else mouseKey in
  let mouseKey := if has_bits button tcell_WheelDown then MouseWheelDown else mouseKey in
  let mouseKey := if has_bits button tcell_WheelLeft then MouseWheelLeft else mouseKey in
  let mouseKey := if has_bits button tcell_WheelRight then MouseWheelRight else mouseKey in
  mouseKey.

(** "process button events (not wheel events)": the press block, run on
    the button mask with the wheel bits removed. *)
Definition pressStep (g : Globals) (x y button mods mouseKey : Z) : Globals * Z :=
  if negb (button =? tcell_ButtonNone) && (lastMouseKey g =? tcell_ButtonNone) then
    let g := set_lastMouseKey button g in
    let g := set_lastMouseMod mods g in
    if button =? tcell_ButtonPrimary then
      (set_lastY y (set_lastX x (set_dragState MAYBE_DRAGGING g)), MouseLeft)
    else if button =? tcell_ButtonSecondary then (g, MouseRight)
    else if button =? tcell_ButtonMiddle then (g, MouseMiddle)
    else (g, mouseKey)
  else (g, mouseKey).

(** [switch tev.Buttons() { case tcell.ButtonNone: ... }]: the release
    block, run on the full mask. *)
Definition releaseStep (g : Globals) (buttons mouseMod : Z) : Globals * Z :=
  if buttons =? tcell_ButtonNone then
    if negb (lastMouseKey g =? tcell_ButtonNone) then
      let g :=
        if lastMouseKey g =? tcell_ButtonPrimary
        then set_dragState NOT_DRAGGING g else g in
      let mouseMod := lastMouseMod g in
      let g := set_lastMouseMod tcell_ModNone g in
      let g := set_lastMouseKey tcell_ButtonNone g in
      (g, mouseMod)
    else (g, mouseMod)
  else (g, mouseMod).

(** The [*tcell.EventMouse] case of [pollEvent]. *)
Definition pollMouse (g : Globals) (x y buttons mods : Z) : Globals * GocuiEvent :=
  let button := buttons in
  let mouseKey := MouseRelease in
  let mouseMod := ModNone in
  let mouseKey := wheelKey button mouseKey in
  let button := Z.land button 255 in
  let '(g, mouseKey) := pressStep g x y button mods mouseKey in
  let '(g, mouseMod) := releaseStep g buttons mouseMod in
  if dragState g =? NOT_DRAGGING then (g, GocuiEvent_of_type eventNone)
  else
    let '(g, mouseMod, mouseKey) :=
      if dragState g =? MAYBE_DRAGGING then
        if negb (x =? lastX g) || negb (y =? lastY g)
        then (set_dragState DRAGGING g, mouseMod, mouseKey)
        else (g, mouseMod, mouseKey)
      else if dragState g =? DRAGGING then (g, ModMotion, MouseLeft)
      else (g, mouseMod, mouseKey) in
    (g, mkGocuiEvent eventMouse mouseMod mouseKey 0 0 0 None x y 0).

(* func pollEvent() GocuiEvent
   The event returned by Screen.PollEvent() is the argument [tev]; the
   package-level variables are threaded through. *)
Definition pollEvent (g : Globals) (tev : tcellEvent) : Globals * GocuiEvent :=
  match tev with
  | EventInterrupt => (g, GocuiEvent_of_type eventInterrupt)
  | EventResize w h => (g, mkGocuiEvent eventResize 0 0 0 w h None 0 0 0)
  | EventKey key rune mods => (g, pollKey key rune mods)
  | EventMouse x y buttons mods => pollMouse g x y buttons mods
  | _ => (g, GocuiEvent_of_type eventNone)
  end.

(** Successive calls of [pollEvent]: the final state and the events
    returned, in order. *)
Fixpoint pollEvents (g : Globals) (tevs : list tcellEvent)
  : Globals * list GocuiEvent :=
  match tevs with
  | [] => (g, [])
  | tev :: rest =>
      let '(g1, ev) := pollEvent g tev in
      let '(g2, evs) := pollEvents g1 rest in
      (g2, ev :: evs)
  end.

End Translator.

(** ** The candidate extractor

    [GenerateMenuCandidates] is called by pkg/gui/gui_test.go and defined
    in a file that is not at hand: the extractor below follows section 4.3
    of the specification.  Patterns and templates are written in the
    syntax of the scenarios of the test, of which a fragment is covered:
    literals, [.], bracket classes, groups (plain, named [(?P<name>...)],
    non-capturing [(?:...)]), greedy [*], [+], [?] and [|]; template text
    with [{{ .key }}] references. *)

Module Extractor.

Local Open Scope string_scope.
Local Open Scope nat_scope.

(** *** Results *)

Inductive ExtractError := PatternError | TemplateError.

Inductive result (A : Type) :=
  | Ok (a : A)
  | Fail (e : ExtractError).
Arguments Ok {A} a.
Arguments Fail {A} e.

Definition bind {A B} (m : result A) (f : A -> result B) : result B :=
  match m with
  | Ok a => f a
  | Fail e => Fail e
  end.

Definition of_option {A} (e : ExtractError) (o : option A) : result A :=
  match o with
  | Some a => Ok a
  | None => Fail e
  end.

(** Modelled from the spec: the type [commandMenuEntry] of the test, the
    "pair (label: text, value: text)" that section 3 calls a candidate. *)
Record commandMenuEntry := mkEntry {
  label : string;
  value : string
}.

(** *** Regular expressions *)

(** Modelled from the spec: the "user-supplied regular expression with
    named capture groups" of section 1, as a syntax tree; a capture group
    carries its 1-based index and its name. *)
Inductive regex :=
  | REmpty
  | RChar (c : ascii)
  | RAny
  | RClass (negated : bool) (ranges : list (ascii * ascii))
  | RSeq (r1 r2 : regex)
  | RAlt (r1 r2 : regex)
  | RStar (r : regex)
  | RGroup (index : nat) (name : option string) (r : regex).

Definition is_quantifier (c : ascii) : bool :=
  (Ascii.eqb c "*" || Ascii.eqb c "+" || Ascii.eqb c "?")%char.

(** The items of a bracket class up to the closing bracket. *)
Fixpoint parseClass (s : string) (acc : list (ascii * ascii))
  : option (list (ascii * ascii) * string) :=
  match s with
  | EmptyString => None
  | String c s1 =>
      if Ascii.eqb c "]" then Some (rev acc, s1)
      else
        match s1 with
        | String d (String e s3) =>
            if Ascii.eqb d "-" && negb (Ascii.eqb e "]")
            then parseClass s3 ((c, e) :: acc)
            else parseClass s1 ((c, c) :: acc)
        | _ => parseClass s1 ((c, c) :: acc)
        end
  end.

(** The name of a named group up to the closing [>]. *)
Fixpoint parseName (s : string) : option (string * string) :=
  match s with
  | EmptyString => None
  | String c s1 =>
      if Ascii.eqb c ">" then Some ("", s1)
      else '(nm, rest) ← parseName s1; Some (String c nm, rest)
  end.

(** A quantifier after an atom, if there is one. *)
Definition parseQuantifier (a : regex) (s : string) : regex * string :=
  match s with
  | String "*" s1 => (RStar a, s1)
  | String "+" s1 => (RSeq a (RStar a), s1)
  | String "?" s1 => (RAlt a REmpty, s1)
  | _ => (a, s)
  end.

(** Recursive descent; [n] is the index the next capture group gets. *)
Fixpoint parseAlt (fuel : nat) (s : string) (n : nat) {struct fuel}
  : option (regex * string * nat) :=
  match fuel with
  | O => None
  | S fuel =>
      '(r1, s1, n1) ← parseSeq fuel s n;
      match s1 with
      | String "|" s2 =>
          '(r2, s3, n2) ← parseAlt fuel s2 n1; Some (RAlt r1 r2, s3, n2)
      | _ => Some (r1, s1, n1)
      end
  end
with parseSeq (fuel : nat) (s : string) (n : nat) {struct fuel}
  : option (regex * string * nat) :=
  match fuel with
  | O => None
  | S fuel =>
      match s with
      | EmptyString | String "|" _ | String ")" _ => Some (REmpty, s, n)
      | _ =>
          '(a, s1, n1) ← parseAtom fuel s n;
          let '(q, s2) := parseQuantifier a s1 in
          '(r, s3, n2) ← parseSeq fuel s2 n1;
          Some (RSeq q r, s3, n2)
      end
  end
with parseAtom (fuel : nat) (s : string) (n : nat) {struct fuel}
  : option (regex * string * nat) :=
  match fuel with
  | O => None
  | S fuel =>
      match s with
      | EmptyString => None
      | String "(" (String "?" (String "P" (String "<" s1))) =>
          '(nm, s2) ← parseName s1;
          '(r, s3, n1) ← parseAlt fuel s2 (S n);
          match s3 with
          | String ")" s4 => Some (RGroup n (Some nm) r, s4, n1)
          | _ => None
          end
      | String "(" (String "?" (String ":" s1)) =>
          '(r, s2, n1) ← parseAlt fuel s1 n;
          match s2 with
          | String ")" s3 => Some (r, s3, n1)
          | _ => None
          end
      | String "(" (String "?" _) => None
      | String "(" s1 =>
          '(r, s2, n1) ← parseAlt fuel s1 (S n);
          match s2 with
          | String ")" s3 => Some (RGroup n None r, s3, n1)
          | _ => None
          end
      | String "[" (String "^" s1) =>
          '(rs, s2) ← parseClass s1 []; Some (RClass true rs, s2, n)
      | String "[" s1 =>
          '(rs, s2) ← parseClass s1 []; Some (RClass false rs, s2, n)
      | String "." s1 => Some (RAny, s1, n)
      | String "\" (String c s1) => Some (RChar c, s1, n)
      | String "\" EmptyString => None
      | String c s1 =>
          if is_quantifier c then None else Some (RChar c, s1, n)
      end
  end.

(** Modelled from the spec: compiling the pattern, which fails on a
    malformed one ("fail immediately with PatternError"); the whole text
    of the pattern must be consumed. *)
Definition compile (pattern : string) : option regex :=
  '(r, rest, _) ← parseAlt (3 * String.length pattern + 3) pattern 1;
  match rest with
  | EmptyString => Some r
  | _ => None
  end.

(** The capture groups of a pattern, with their names. *)
Fixpoint groups (r : regex) : list (nat * option string) :=
  match r with
  | RSeq r1 r2 | RAlt r1 r2 => groups r1 ++ groups r2
  | RStar r1 => groups r1
  | RGroup i nm r1 => (i, nm) :: groups r1
  | _ => []
  end.

Definition in_range (c : ascii) (rg : ascii * ascii) : bool :=
  (N_of_ascii (fst rg) <=? N_of_ascii c)%N && (N_of_ascii c <=? N_of_ascii (snd rg))%N.

Definition newline : ascii := "010"%char.

(** The text between the position [s] and the later position [s']. *)
Definition consumed (s s' : string) : string :=
  substring 0 (String.length s - String.length s') s.

(** Modelled from the spec: "attempt to match pattern against the line".
    A backtracking matcher: [rmatch r s caps k] matches [r] at the head of
    [s], first alternative first and as many repetitions as possible first,
    and passes what is left and the captures to [k]. *)
Fixpoint rmatch {A} (r : regex) (s : string) (caps : gmap nat string)
    (k : string -> gmap nat string -> option A) {struct r} : option A :=
  match r with
  | REmpty => k s caps
  | RChar c =>
      match s with
      | String d s1 => if Ascii.eqb c d then k s1 caps else None
      | EmptyString => None
      end
  | RAny =>
      match s with
      | String d s1 => if Ascii.eqb d newline then None else k s1 caps
      | EmptyString => None
      end
  | RClass negated rs =>
      match s with
      | String d s1 =>
          if xorb negated (existsb (in_range d) rs) then k s1 caps else None
      | EmptyString => None
      end
  | RSeq r1 r2 => rmatch r1 s caps (fun s1 caps1 => rmatch r2 s1 caps1 k)
  | RAlt r1 r2 =>
      match rmatch r1 s caps k with
      | Some a => Some a
      | None => rmatch r2 s caps k
      end
  | RStar r1 =>
      (fix loop (fuel : nat) (s : string) (caps : gmap nat string)
           {struct fuel} : option A :=
         match fuel with
         | O => k s caps
         | S fuel =>
             match rmatch r1 s caps (fun s1 caps1 =>
                     if String.length s1 <? String.length s
                     then loop fuel s1 caps1 else None) with
             | Some a => Some a
             | None => k s caps
             end
         end) (String.length s) s caps
  | RGroup i _ r1 =>
      rmatch r1 s caps (fun s1 caps1 => k s1 (<[i := consumed s s1]> caps1))
  end.

(** Modelled from the spec: the leftmost match of [r] in [line], if there
    is one: the captured texts by group index, the whole match under
    index 0. *)
Fixpoint rfind (r : regex) (line : string) : option (gmap nat string) :=
  match rmatch r line ∅ (fun s1 caps => Some (<[0 := consumed line s1]> caps)) with
  | Some caps => Some caps
  | None =>
      match line with
      | String _ rest => rfind r rest
      | EmptyString => None
      end
  end.

(** *** Templates *)

Inductive piece :=
  | Lit (c : ascii)
  | Ref (key : string).

Definition is_ident_char (c : ascii) : bool :=
  let n := N_of_ascii c in
  ((48 <=? n) && (n <=? 57) || (65 <=? n) && (n <=? 90)
   || (97 <=? n) && (n <=? 122) || (n =? 95))%N.

Fixpoint skipSpaces (s : string) : string :=
  match s with
  | String " " s1 => skipSpaces s1
  | _ => s
  end.

(** The longest identifier at the head of [s], and what follows it. *)
Fixpoint readIdent (s : string) : string * string :=
  match s with
  | String c s1 =>
      if is_ident_char c
      then let '(id, rest) := readIdent s1 in (String c id, rest)
      else ("", s)
  | EmptyString => ("", s)
  end.

(** What follows the opening braces of a reference: spaces, a dot, the
    key, spaces, the closing braces. *)
Definition parseRef (s : string) : option (string * string) :=
  match skipSpaces s with
  | String "." s1 =>
      let '(id, s2) := readIdent s1 in
      match id, skipSpaces s2 with
      | String _ _, String "}" (String "}" s3) => Some (id, s3)
      | _, _ => None
      end
  | _ => None
  end.

Fixpoint parseTemplate (fuel : nat) (s : string) : option (list piece) :=
  match fuel with
  | O => match s with EmptyString => Some [] | _ => None end
  | S fuel =>
      match s with
      | EmptyString => Some []
      | String "{" (String "{" s1) =>
          '(id, s2) ← parseRef s1;
          ps ← parseTemplate fuel s2;
          Some (Ref id :: ps)
      | String c s1 =>
          ps ← parseTemplate fuel s1; Some (Lit c :: ps)
      end
  end.

(** Modelled from the spec: a template is text with references to keys
    of the substitution context, written as in the scenarios. *)
Definition template (s : string) : option (list piece) :=
  parseTemplate (String.length s) s.

(** Modelled from the spec: rendering a template against a substitution
    context; a reference to a key the context lacks is unresolvable. *)
Fixpoint render (ctx : gmap string string) (ps : list piece) : option string :=
  match ps with
  | [] => Some ""
  | Lit c :: rest => s ← render ctx rest; Some (String c s)
  | Ref key :: rest =>
      v ← ctx !! key; s ← render ctx rest; Some (v ++ s)
  end.

(** *** Extraction *)

(** The positional key of the group with 1-based index [n]. *)
Definition group_key (n : nat) : string :=
  "group_" ++ NilEmpty.string_of_uint (Nat.to_uint n).

(** Modelled from the spec: the substitution context of a match, "every
    named capture group under its name, and additionally every capture
    group (named or not) under a positional key group_<N>".  A group that
    took no part in the match is bound to the empty text. *)
Fixpoint context (gs : list (nat * option string)) (caps : gmap nat string)
  : gmap string string :=
  match gs with
  | [] => ∅
  | (i, nm) :: rest =>
      let txt := default "" (caps !! i) in
      let ctx := <[group_key i := txt]> (context rest caps) in
      match nm with
      | Some name => <[name := txt]> ctx
      | None => ctx
      end
  end.

(** Modelled from the spec: "lines split on line boundaries, empty
    trailing line ignored". *)
Fixpoint lines_go (s : string) (cur : string) : list string :=
  match s with
  | EmptyString => match cur with EmptyString => [] | _ => [cur] end
  | String c s1 =>
      if Ascii.eqb c newline then cur :: lines_go s1 ""
      else lines_go s1 (cur ++ String c "")
  end.

Definition lines (text : string) : list string := lines_go text "".

(** Modelled from the spec: one candidate from one match context; without
    a label template "the label equals the rendered value". *)
Definition candidate (ctx : gmap string string)
    (valueT : list piece) (labelT : option (list piece))
  : result commandMenuEntry :=
  bind (of_option TemplateError (render ctx valueT)) (fun v =>
  match labelT with
  | None => Ok (mkEntry v v)
  | Some lt =>
      bind (of_option TemplateError (render ctx lt)) (fun l => Ok (mkEntry l v))
  end).

(** Modelled from the spec: the lines in order; a line without a match
    gives no candidate, a rendering failure aborts the whole call. *)
Fixpoint extractLines (re : regex)
    (valueT : list piece) (labelT : option (list piece)) (ls : list string)
  : result (list commandMenuEntry) :=
  match ls with
  | [] => Ok []
  | line :: rest =>
      match rfind re line with
      | None => extractLines re valueT labelT rest
      | Some caps =>
          bind (candidate (context (groups re) caps) valueT labelT) (fun c =>
          bind (extractLines re valueT labelT rest) (fun cs => Ok (c :: cs)))
      end
  end.

(** Every reference of a template names a key of the pattern. *)
Definition resolvable (re : regex) (ps : list piece) : bool :=
  bool_decide (is_Some (render (context (groups re) ∅) ps)).

(** Modelled from the spec: [GenerateMenuCandidates], the extractor of
    section 4.3, which pkg/gui/gui_test.go calls and which is defined
    outside the files at hand.  A malformed pattern fails before any line
    is read; a template reference the pattern cannot resolve fails the
    whole call; each matching line gives one candidate, in line order; an
    empty label template makes the label the rendered value. *)
Definition GenerateMenuCandidates
    (commandOutput filter valueFormat labelFormat : string)
  : result (list commandMenuEntry) :=
  bind (of_option PatternError (compile filter)) (fun re =>
  bind (of_option TemplateError (template valueFormat)) (fun valueT =>
  bind (match labelFormat with
        | EmptyString => Ok None
        | _ => bind (of_option TemplateError (template labelFormat))
                    (fun lt => Ok (Some lt))
        end) (fun labelT =>
  if resolvable re valueT && from_option (resolvable re) true labelT
  then extractLines re valueT labelT (lines commandOutput)
  else Fail TemplateError))).

End Extractor.

(** ** Vocabulary of the statements *)

Section Vocabulary.
Context {tc : Tcell} {gc : Gocui}.

(** The attribute mask the encoder tests before it sets a flag. *)
Definition attrMask (f : StyleFlag) : Z :=
  match f with
  | FlagBold => AttrBold
  | FlagUnderline => AttrUnderline
  | FlagReverse => AttrReverse
  | FlagBlink => AttrBlink
  | FlagDim => AttrDim
  | FlagItalic => AttrItalic
  | FlagStrikeThrough => AttrStrikeThrough
  end.

(** One conditional flag update of [setTcellFontEffectStyle]. *)
Definition flagStep (attr : Z) (st : Style) (f : StyleFlag) : Style :=
  if has_bits attr (attrMask f) then setFlag f st true else st.

(** The flags whose bits are present in an attribute. *)
Definition attrFlags (attr : Z) : gset StyleFlag :=
  list_to_set (filter (fun f => has_bits attr (attrMask f) = true) all_flags).

(** Setting the flags of a list one after the other. *)
Definition applyFlags (st : Style) (fs : list StyleFlag) : Style :=
  foldl (fun st f => setFlag f st true) st fs.

(** The attribute made of the masks of a list of flags. *)
Definition attrOfFlags (fs : list StyleFlag) : Z :=
  foldr (fun f acc => Z.lor (attrMask f) acc) 0 fs.

(** What is assumed of the attribute masks where a statement needs them
    to be independent: none is empty and no two overlap. *)
Definition AttrMasksIndependent : Prop :=
  forall f g : StyleFlag,
    attrMask f <> 0 /\ (f <> g -> Z.land (attrMask f) (attrMask g) = 0).

(** What is assumed of tcell's constants: the "none" masks are zero, Ctrl
    is a modifier, and the three buttons the driver distinguishes are
    distinct masks within the low byte that [pollEvent] keeps. *)
Record TcellLaws : Prop := {
  ButtonNone_zero : tcell_ButtonNone = 0;
  ModNone_zero : tcell_ModNone = 0;
  ModCtrl_nonzero : tcell_ModCtrl <> 0;
  ButtonPrimary_nonzero : tcell_ButtonPrimary <> 0;
  ButtonPrimary_low : Z.land tcell_ButtonPrimary 255 = tcell_ButtonPrimary;
  ButtonSecondary_low : Z.land tcell_ButtonSecondary 255 = tcell_ButtonSecondary;
  ButtonMiddle_low : Z.land tcell_ButtonMiddle 255 = tcell_ButtonMiddle;
  ButtonSecondary_not_primary : tcell_ButtonSecondary <> tcell_ButtonPrimary;
  ButtonMiddle_not_primary : tcell_ButtonMiddle <> tcell_ButtonPrimary
}.

(** The gesture-state invariant: a drag is armed or running exactly when
    the recorded button is the primary one. *)
Definition drag_inv (g : Globals) : Prop :=
  dragState g <> NOT_DRAGGING <-> lastMouseKey g = tcell_ButtonPrimary.

(** The states the driver can be in: those [pollEvent] reaches from the
    initial values. *)
Definition reachable (g : Globals) : Prop :=
  exists tevs : list tcellEvent, g = fst (pollEvents initGlobals tevs).

(** Some wheel-direction bit is set in a button mask. *)
Definition wheel_bit_set (buttons : Z) : bool :=
  has_bits buttons tcell_WheelUp || has_bits buttons tcell_WheelDown
  || has_bits buttons tcell_WheelLeft || has_bits buttons tcell_WheelRight.

(** The wheel key that matches a button mask; when several wheel bits are
    set, the direction tested last in [pollEvent] wins. *)
Definition matchingWheelKey (buttons : Z) : option Z :=
  if has_bits buttons tcell_WheelRight then Some MouseWheelRight
  else if has_bits buttons tcell_WheelLeft then Some MouseWheelLeft
  else if has_bits buttons tcell_WheelDown then Some MouseWheelDown
  else if has_bits buttons tcell_WheelUp then Some MouseWheelUp
  else None.

(** The primary button is down in a button mask. *)
Definition primary_held (buttons : Z) : Prop :=
  has_bits buttons tcell_ButtonPrimary = true.

(** The event a running drag reports at a position. *)
Definition dragEvent (x y : Z) : GocuiEvent :=
  mkGocuiEvent eventMouse ModMotion MouseLeft 0 0 0 None x y 0.

(** The mouse event with a key and modifiers at a position. *)
Definition mouseEvent (key mods x y : Z) : GocuiEvent :=
  mkGocuiEvent eventMouse mods key 0 0 0 None x y 0.

(** The raw events during which the primary button is held. *)
Definition primary_held_event (tev : tcellEvent) : Prop :=
  match tev with
  | EventMouse _ _ buttons _ => primary_held buttons
  | _ => False
  end.

(** The drag event at the position of a raw mouse event. *)
Definition drag_report (tev : tcellEvent) : GocuiEvent :=
  match tev with
  | EventMouse x y _ _ => dragEvent x y
  | _ => GocuiEvent_of_type eventNone
  end.

(** What the specification says a wheel event does: a mouse event with the
    matching wheel key comes out and the drag phase stays as it was. *)
Definition wheel_passes_through (g : Globals) (x y buttons mods : Z) : Prop :=
  let '(g1, ev) := pollEvent g (EventMouse x y buttons mods) in
  Type' ev = eventMouse /\ Some (Key ev) = matchingWheelKey buttons
  /\ dragState g1 = dragState g.

End Vocabulary.

(** ** Vocabulary of the further statements *)

Section GestureVocabulary.
Context {tc : Tcell} {gc : Gocui}.

(** The raw events of dynamic type [*tcell.EventMouse]. *)
Definition is_mouse (tev : tcellEvent) : bool :=
  match tev with
  | EventMouse _ _ _ _ => true
  | _ => false
  end.

(** The package-level variables with no button recorded, as a release
    leaves them: only the reference position stays. *)
Definition idleGlobals (x y : Z) : Globals :=
  mkGlobals tcell_ButtonNone tcell_ModNone NOT_DRAGGING x y.

(** The drag state is one of its three constants, and no modifiers stay
    recorded without a button. *)
Definition gesture_wf (g : Globals) : Prop :=
  (dragState g = NOT_DRAGGING \/ dragState g = MAYBE_DRAGGING
   \/ dragState g = DRAGGING)
  /\ (lastMouseKey g = tcell_ButtonNone -> lastMouseMod g = tcell_ModNone).

(** The [switch dragState] that ends the mouse case of [pollEvent],
    with the return that follows it, as a function of the variables it
    reads. *)
Definition dragSwitch (g : Globals) (x y mouseKey mouseMod : Z)
  : Globals * GocuiEvent :=
  if dragState g =? NOT_DRAGGING then (g, GocuiEvent_of_type eventNone)
  else
    let '(g, mouseMod, mouseKey) :=
      if dragState g =? MAYBE_DRAGGING then
        if negb (x =? lastX g) || negb (y =? lastY g)
        then (set_dragState DRAGGING g, mouseMod, mouseKey)
        else (g, mouseMod, mouseKey)
      else if dragState g =? DRAGGING then (g, ModMotion, MouseLeft)
      else (g, mouseMod, mouseKey) in
    (g, mkGocuiEvent eventMouse mouseMod mouseKey 0 0 0 None x y 0).

(** The raw events paired with the events [pollEvents] returns for them. *)
Definition answered (g : Globals) (tevs : list tcellEvent)
  : list (tcellEvent * GocuiEvent) :=
  zip tevs (pollEvents g tevs).2.

End GestureVocabulary.

(** ** Vocabulary of the statements on templates *)

Section TemplateVocabulary.
Import Extractor.




End TemplateVocabulary.

(** ** One assignment of the constants

    Used to evaluate the definitions on concrete inputs: button, wheel and
    modifier masks are distinct bits, keys are distinct codes, attribute
    flags are distinct bits above the colour bits, which [getTcellColor]
    keeps. *)

Definition sample_tcell : Tcell := {|
  tcell_KeyRune := 256;
  tcell_KeyCtrlSpace := 0;
  tcell_ModNone := 0;
  tcell_ModShift := 1;
  tcell_ModCtrl := 2;
  tcell_ButtonNone := 0;
  tcell_ButtonPrimary := 1;
  tcell_ButtonSecondary := 2;
  tcell_ButtonMiddle := 4;
  tcell_WheelUp := 256;
  tcell_WheelDown := 512;
  tcell_WheelLeft := 1024;
  tcell_WheelRight := 2048
|}.

Definition sample_gocui : Gocui := {|
  MouseLeft := 341;
  MouseRight := 340;
  MouseMiddle := 339;
  MouseRelease := 338;
  MouseWheelUp := 337;
  MouseWheelDown := 336;
  MouseWheelLeft := 335;
  MouseWheelRight := 334;
  ModNone := 0;
  ModMotion := 2;
  ColorDefault := 0;
  AttrBold := Z.shiftl 1 40;
  AttrBlink := Z.shiftl 1 41;
  AttrReverse := Z.shiftl 1 42;
  AttrUnderline := Z.shiftl 1 43;
  AttrDim := Z.shiftl 1 44;
  AttrItalic := Z.shiftl 1 45;
  AttrStrikeThrough := Z.shiftl 1 46;
  getTcellColor := fun c _ => Z.land c 1099511627775
|}.

(** * Properties *)

(** ** The style encoder *)

Section EncoderFacts.
Context {gc : Gocui}.

Lemma setTcellFontEffectStyle_foldl st attr :
  setTcellFontEffectStyle st attr = foldl (flagStep attr) st all_flags.
Proof. reflexivity. Qed.

Lemma foldl_flagStep attr fs : forall st,
  foldl (flagStep attr) st fs =
  mkStyle (style_fg st) (style_bg st)
    (style_flags st ∪
     list_to_set (filter (fun f => has_bits attr (attrMask f) = true) fs)).
Proof.
  induction fs as [|f fs IH]; intros st; simpl.
  - destruct st as [c1 c2 fl]; simpl. f_equal. set_solver.
  - rewrite IH. unfold flagStep at 1 2 3.
    destruct (has_bits attr (attrMask f)) eqn:Hf.
    + rewrite filter_cons_True by done. simpl. f_equal. set_solver.
    + rewrite filter_cons_False by (rewrite Hf; done). done.
Qed.

Lemma setTcellFontEffectStyle_flags st attr :
  setTcellFontEffectStyle st attr =
  mkStyle (style_fg st) (style_bg st) (style_flags st ∪ attrFlags attr).
Proof. rewrite setTcellFontEffectStyle_foldl. apply foldl_flagStep. Qed.

Lemma elem_of_attrFlags f attr :
  f ∈ attrFlags attr <-> has_bits attr (attrMask f) = true.
Proof.
  unfold attrFlags. rewrite elem_of_list_to_set, list_elem_of_filter.
  split; [tauto|]. intros H; split; [done|].
  destruct f; set_solver.
Qed.

Lemma applyFlags_flags fs : forall st,
  applyFlags st fs =
  mkStyle (style_fg st) (style_bg st) (style_flags st ∪ list_to_set fs).
Proof.
  unfold applyFlags.
  induction fs as [|f fs IH]; intros st; simpl.
  - destruct st as [c1 c2 fl]; simpl. f_equal. set_solver.
  - rewrite IH. simpl. f_equal. set_solver.
Qed.

Lemma has_bits_attrOfFlags (Hind : AttrMasksIndependent) g fs :
  has_bits (attrOfFlags fs) (attrMask g) = bool_decide (g ∈ fs).
Proof.
  unfold has_bits.
  induction fs as [|f fs IH].
  - rewrite bool_decide_eq_false_2 by set_solver. done.
  - cbn [attrOfFlags foldr]. fold (attrOfFlags fs).
    rewrite Z.land_lor_distr_l.
    destruct (decide (f = g)) as [->|Hne].
    + rewrite Z.land_diag, bool_decide_eq_true_2 by set_solver.
      apply negb_true_iff, Z.eqb_neq. rewrite Z.lor_eq_0_iff.
      intros [H0 _]. by apply (Hind g g).
    + destruct (Hind f g) as [_ Hfg]. rewrite Hfg, Z.lor_0_l, IH by done.
      apply bool_decide_ext. set_solver.
Qed.


(** C7: flag application is additive (the flags of the result are those of
    the base style together with those whose bits the attribute has, the
    colours being kept), idempotent, independent of the order and of
    repetitions in which a set of flags is applied, and every combination
    of the seven flags is the flag set of some attribute. *)
Theorem flag_application_is_set_union (st : Style) (attr : Z) :
  AttrMasksIndependent ->
  setTcellFontEffectStyle st attr =
    mkStyle (style_fg st) (style_bg st) (style_flags st ∪ attrFlags attr)
  /\ setTcellFontEffectStyle (setTcellFontEffectStyle st attr) attr =
       setTcellFontEffectStyle st attr
  /\ (forall attr2 : Z,
        setTcellFontEffectStyle (setTcellFontEffectStyle st attr) attr2 =
        setTcellFontEffectStyle (setTcellFontEffectStyle st attr2) attr)
  /\ (forall fs : list StyleFlag,
        list_to_set fs = attrFlags attr ->
        applyFlags st fs = setTcellFontEffectStyle st attr)
  /\ (forall f : StyleFlag,
        f ∈ style_flags (setTcellFontEffectStyle st attr) <->
        f ∈ style_flags st \/ has_bits attr (attrMask f) = true)
  /\ (forall combo : gset StyleFlag,
        attrFlags (attrOfFlags (elements combo)) = combo
        /\ style_flags (setTcellFontEffectStyle StyleDefault
                          (attrOfFlags (elements combo))) = combo).
Proof.
  intros Hind.
  split; [apply setTcellFontEffectStyle_flags | idtac].
  split.
  { rewrite !setTcellFontEffectStyle_flags. simpl. f_equal. set_solver. }
  split.
  { intros attr2. rewrite !setTcellFontEffectStyle_flags. simpl. f_equal.
    set_solver. }
  split.
  { intros fs Hfs.
    rewrite applyFlags_flags, setTcellFontEffectStyle_flags. by rewrite Hfs. }
  split.
  { intros f. rewrite setTcellFontEffectStyle_flags. simpl.
    by rewrite elem_of_union, elem_of_attrFlags. }
  intros combo. split.
  - apply set_eq. intros f.
    rewrite elem_of_attrFlags, has_bits_attrOfFlags by done.
    rewrite bool_decide_eq_true. set_solver.
  - rewrite setTcellFontEffectStyle_flags. simpl.
    apply set_eq. intros f.
    rewrite elem_of_union, elem_of_attrFlags, has_bits_attrOfFlags by done.
    rewrite bool_decide_eq_true. set_solver.
Qed.

(** X1: each colour of the style comes from its own channel: the
    foreground is set exactly when [fg] differs from [ColorDefault], to
    [getTcellColor fg omode], and likewise the background; the flags do not
    record the channel they came from, so exchanging the two attributes
    keeps them. *)
Theorem style_colours_by_channel (fg bg omode : Z) :
  style_fg (getTcellStyle fg bg omode) =
    (if fg =? ColorDefault then None else Some (getTcellColor fg omode))
  /\ style_bg (getTcellStyle fg bg omode) =
       (if bg =? ColorDefault then None else Some (getTcellColor bg omode))
  /\ style_flags (getTcellStyle fg bg omode) =
       style_flags (getTcellStyle bg fg omode).
Proof.
  unfold getTcellStyle.
  destruct (fg =? ColorDefault), (bg =? ColorDefault); simpl;
    rewrite ?setTcellFontEffectStyle_flags; simpl;
    rewrite ?setTcellFontEffectStyle_flags; simpl;
    repeat split; set_solver.
Qed.

End EncoderFacts.

(** ** The event translator *)

Ltac sample_laws := constructor; vm_compute; congruence.

Section TranslatorFacts.
Context {tc : Tcell} {gc : Gocui}.

Lemma has_bits_nonzero b m : has_bits b m = true -> b <> 0.
Proof.
  unfold has_bits. intros H ->. rewrite Z.land_0_l in H. discriminate.
Qed.

Lemma wheelKey_matching buttons k :
  wheelKey buttons k = default k (matchingWheelKey buttons).
Proof.
  unfold wheelKey, matchingWheelKey.
  destruct (has_bits buttons tcell_WheelRight),
    (has_bits buttons tcell_WheelLeft),
    (has_bits buttons tcell_WheelDown),
    (has_bits buttons tcell_WheelUp); reflexivity.
Qed.

Lemma wheel_bit_set_matching buttons :
  wheel_bit_set buttons = true -> is_Some (matchingWheelKey buttons).
Proof.
  unfold wheel_bit_set, matchingWheelKey.
  destruct (has_bits buttons tcell_WheelRight),
    (has_bits buttons tcell_WheelLeft),
    (has_bits buttons tcell_WheelDown),
    (has_bits buttons tcell_WheelUp); simpl; intros H; eauto; discriminate.
Qed.

Lemma wheel_bit_set_nonzero buttons :
  wheel_bit_set buttons = true -> buttons <> 0.
Proof.
  unfold wheel_bit_set. rewrite !orb_true_iff.
  intros [[[H|H]|H]|H]; exact (has_bits_nonzero _ _ H).
Qed.

(** The press block does nothing while a button is recorded as held. *)
Lemma pressStep_held g x y button mods k :
  lastMouseKey g <> tcell_ButtonNone ->
  pressStep g x y button mods k = (g, k).
Proof.
  intros H. unfold pressStep.
  apply Z.eqb_neq in H. rewrite H, andb_false_r. reflexivity.
Qed.

(** The release block does nothing while the raw mask has a bit set. *)
Lemma releaseStep_down g buttons mouseMod :
  buttons <> tcell_ButtonNone ->
  releaseStep g buttons mouseMod = (g, mouseMod).
Proof.
  intros H. unfold releaseStep. apply Z.eqb_neq in H. rewrite H. reflexivity.
Qed.

(** Only the primary button makes the press block touch the drag state. *)
Lemma pressStep_not_primary g x y button mods k :
  button <> tcell_ButtonPrimary ->
  dragState (pressStep g x y button mods k).1 = dragState g.
Proof.
  intros H. unfold pressStep. apply Z.eqb_neq in H. rewrite H.
  destruct (negb _ && _); [idtac | reflexivity].
  destruct (button =? tcell_ButtonSecondary); [reflexivity | idtac].
  destruct (button =? tcell_ButtonMiddle); reflexivity.
Qed.

(** The release block leaves an Idle phase Idle. *)
Lemma releaseStep_idle g buttons mouseMod :
  dragState g = NOT_DRAGGING ->
  dragState (releaseStep g buttons mouseMod).1 = NOT_DRAGGING.
Proof.
  intros H. unfold releaseStep.
  destruct (buttons =? tcell_ButtonNone); [idtac | exact H].
  destruct (negb _); [idtac | exact H].
  destruct (lastMouseKey g =? tcell_ButtonPrimary); [reflexivity | exact H].
Qed.

(** A mouse event with some bit set, while a button is recorded and the
    phase is Armed. *)
Lemma pollMouse_armed g x y buttons mods :
  dragState g = MAYBE_DRAGGING ->
  lastMouseKey g <> tcell_ButtonNone ->
  buttons <> tcell_ButtonNone ->
  pollMouse g x y buttons mods =
    (if (x =? lastX g) && (y =? lastY g) then g else set_dragState DRAGGING g,
     mouseEvent (wheelKey buttons MouseRelease) ModNone x y).
Proof.
  intros Hd Hk Hb. unfold pollMouse.
  rewrite pressStep_held, releaseStep_down by assumption.
  rewrite Hd. simpl.
  destruct (x =? lastX g), (y =? lastY g); reflexivity.
Qed.

(** A mouse event with some bit set, while a button is recorded and the
    phase is Dragging. *)
Lemma pollMouse_dragging g x y buttons mods :
  dragState g = DRAGGING ->
  lastMouseKey g <> tcell_ButtonNone ->
  buttons <> tcell_ButtonNone ->
  pollMouse g x y buttons mods = (g, dragEvent x y).
Proof.
  intros Hd Hk Hb. unfold pollMouse.
  rewrite pressStep_held, releaseStep_down by assumption.
  rewrite Hd. reflexivity.
Qed.

(** The primary button goes down while no button is recorded. *)
Lemma pollMouse_press_primary g x y mods :
  TcellLaws ->
  lastMouseKey g = tcell_ButtonNone ->
  pollMouse g x y tcell_ButtonPrimary mods =
    (mkGlobals tcell_ButtonPrimary mods MAYBE_DRAGGING x y,
     mouseEvent MouseLeft ModNone x y).
Proof.
  intros L Hk. unfold pollMouse, pressStep.
  rewrite (ButtonPrimary_low L), Hk, !Z.eqb_refl.
  assert (Hne : (tcell_ButtonPrimary =? tcell_ButtonNone) = false).
  { apply Z.eqb_neq. rewrite (ButtonNone_zero L).
    apply (ButtonPrimary_nonzero L). }
  rewrite Hne. simpl. unfold releaseStep. rewrite Hne. simpl.
  rewrite !Z.eqb_refl. reflexivity.
Qed.

(** All buttons are up while the primary button is recorded. *)
Lemma pollMouse_release_primary g x y mods :
  TcellLaws ->
  lastMouseKey g = tcell_ButtonPrimary ->
  pollMouse g x y tcell_ButtonNone mods =
    (mkGlobals tcell_ButtonNone tcell_ModNone NOT_DRAGGING (lastX g) (lastY g),
     GocuiEvent_of_type eventNone).
Proof.
  intros L Hk.
  assert (Hne : tcell_ButtonPrimary <> tcell_ButtonNone).
  { rewrite (ButtonNone_zero L). apply (ButtonPrimary_nonzero L). }
  unfold pollMouse. rewrite pressStep_held by congruence.
  unfold releaseStep. rewrite Hk, !Z.eqb_refl.
  apply Z.eqb_neq in Hne. rewrite Hne. reflexivity.
Qed.

(** *** The invariant *)

Lemma drag_inv_init : TcellLaws -> drag_inv initGlobals.
Proof.
  intros L. unfold drag_inv, initGlobals. simpl.
  pose proof (ButtonNone_zero L). pose proof (ButtonPrimary_nonzero L).
  split; [congruence | lia].
Qed.

Lemma drag_inv_pressStep g x y button mods k :
  TcellLaws -> drag_inv g -> drag_inv (pressStep g x y button mods k).1.
Proof.
  intros L. unfold drag_inv.
  pose proof (ButtonNone_zero L). pose proof (ButtonPrimary_nonzero L).
  unfold pressStep, NOT_DRAGGING, MAYBE_DRAGGING.
  destruct g as [lk lm ds lx ly]; simpl.
  repeat (case Z.eqb_spec; simpl; intros); lia.
Qed.

Lemma drag_inv_releaseStep g buttons mouseMod :
  TcellLaws -> drag_inv g -> drag_inv (releaseStep g buttons mouseMod).1.
Proof.
  intros L. unfold drag_inv.
  pose proof (ButtonNone_zero L). pose proof (ButtonPrimary_nonzero L).
  unfold releaseStep, NOT_DRAGGING.
  destruct g as [lk lm ds lx ly]; simpl.
  repeat (case Z.eqb_spec; simpl; intros); lia.
Qed.

Lemma drag_inv_pollMouse g x y buttons mods :
  TcellLaws -> drag_inv g -> drag_inv (pollMouse g x y buttons mods).1.
Proof.
  intros L Hg. unfold pollMouse.
  pose proof (drag_inv_pressStep g x y (Z.land buttons 255) mods
                (wheelKey buttons MouseRelease) L Hg) as H1.
  destruct (pressStep _ _ _ _ _ _) as [g1 k1]. simpl in H1.
  pose proof (drag_inv_releaseStep g1 buttons ModNone L H1) as H2.
  destruct (releaseStep _ _ _) as [g2 m2]. simpl in H2.
  revert H2. unfold drag_inv, NOT_DRAGGING, MAYBE_DRAGGING, DRAGGING.
  destruct g2 as [lk lm ds lx ly]; simpl.
  repeat (case Z.eqb_spec; simpl; intros); try lia.
  all: destruct (negb _ || negb _); simpl; lia.
Qed.

Lemma drag_inv_pollEvent g tev :
  TcellLaws -> drag_inv g -> drag_inv (pollEvent g tev).1.
Proof.
  intros L Hg. destruct tev; simpl; try assumption.
  by apply drag_inv_pollMouse.
Qed.

Lemma pollEvents_cons g tev tevs :
  pollEvents g (tev :: tevs) =
    ((pollEvents (pollEvent g tev).1 tevs).1,
     (pollEvent g tev).2 :: (pollEvents (pollEvent g tev).1 tevs).2).
Proof.
  simpl. destruct (pollEvent g tev) as [g1 ev]. simpl.
  destruct (pollEvents g1 tevs). reflexivity.
Qed.

Lemma drag_inv_pollEvents tevs : forall g,
  TcellLaws -> drag_inv g -> drag_inv (pollEvents g tevs).1.
Proof.
  induction tevs as [|tev tevs IH]; intros g L Hg; [assumption|].
  rewrite pollEvents_cons. simpl. apply IH; [assumption|].
  by apply drag_inv_pollEvent.
Qed.

Lemma reachable_drag_inv g : TcellLaws -> reachable g -> drag_inv g.
Proof.
  intros L [tevs ->]. apply drag_inv_pollEvents; [assumption|].
  by apply drag_inv_init.
Qed.

(** In a reachable state whose phase is not Idle, a button is recorded. *)
Lemma reachable_button_recorded g :
  TcellLaws -> reachable g -> dragState g <> NOT_DRAGGING ->
  lastMouseKey g <> tcell_ButtonNone.
Proof.
  intros L Hr Hd. apply (reachable_drag_inv g L Hr) in Hd. rewrite Hd.
  rewrite (ButtonNone_zero L). apply (ButtonPrimary_nonzero L).
Qed.

(** *** Clicks, drags, wheel, keys and errors *)

(** C1 (what the driver does): the primary button pressed while no button
    is recorded, then all buttons up at the same position.  The press is
    reported as a mouse event with key [MouseLeft] and arms the drag state
    without passing it.  On the release, [mouseKey] is [MouseRelease] and
    [mouseMod] has received [lastMouseMod], but the drag state has been
    reset to [NOT_DRAGGING] before the phase is examined, and [pollEvent]
    returns [GocuiEvent{Type: eventNone}] at [case NOT_DRAGGING]: the
    release event that was prepared is discarded. *)
Theorem primary_click_release_is_dropped (g : Globals) (x y mods mods' : Z) :
  TcellLaws ->
  lastMouseKey g = tcell_ButtonNone ->
  dragState (pollEvent g (EventMouse x y tcell_ButtonPrimary mods)).1
    = MAYBE_DRAGGING
  /\ pollEvents g [EventMouse x y tcell_ButtonPrimary mods;
                   EventMouse x y tcell_ButtonNone mods'] =
       (mkGlobals tcell_ButtonNone tcell_ModNone NOT_DRAGGING x y,
        [mouseEvent MouseLeft ModNone x y; GocuiEvent_of_type eventNone]).
Proof.
  intros L Hk. rewrite !pollEvents_cons. simpl.
  rewrite (pollMouse_press_primary g x y mods L Hk). simpl.
  rewrite pollMouse_release_primary by done. done.
Qed.

(** A wheel event without button bits, in the Idle phase, is answered by
    the event of type [eventNone]. *)
Lemma pollMouse_idle_wheel g x y buttons mods :
  TcellLaws ->
  dragState g = NOT_DRAGGING ->
  Z.land buttons 255 = tcell_ButtonNone ->
  buttons <> tcell_ButtonNone ->
  pollMouse g x y buttons mods = (g, GocuiEvent_of_type eventNone).
Proof.
  intros L Hd Hlow Hb. unfold pollMouse, pressStep.
  rewrite Hlow, Z.eqb_refl. simpl.
  rewrite releaseStep_down by assumption. rewrite Hd. reflexivity.
Qed.

(** C2 (what the driver does): a mouse event with a wheel bit set goes
    through the drag-state switch like every other mouse event.  In a
    reachable state, by phase: Idle, the wheel key computed at the head of
    the case is discarded and the event of type [eventNone] is returned
    (for a mask without button bits); Armed, the event is reported with
    the matching wheel key and no modifier, and the phase becomes Dragging
    unless the position is the press position; Dragging, the event is
    reported as the drag event, key [MouseLeft] and modifier [ModMotion],
    not with the wheel key. *)
Theorem wheel_event_by_phase (g : Globals) (x y buttons mods : Z) :
  TcellLaws ->
  reachable g ->
  wheel_bit_set buttons = true ->
  (dragState g = NOT_DRAGGING ->
     Z.land buttons 255 = tcell_ButtonNone ->
     pollEvent g (EventMouse x y buttons mods) =
       (g, GocuiEvent_of_type eventNone))
  /\ (dragState g = MAYBE_DRAGGING ->
       exists wk, matchingWheelKey buttons = Some wk /\
       pollEvent g (EventMouse x y buttons mods) =
         (if (x =? lastX g) && (y =? lastY g) then g
          else set_dragState DRAGGING g,
          mouseEvent wk ModNone x y))
  /\ (dragState g = DRAGGING ->
       pollEvent g (EventMouse x y buttons mods) = (g, dragEvent x y)).
Proof.
  intros L Hr Hw.
  assert (Hb : buttons <> tcell_ButtonNone).
  { rewrite (ButtonNone_zero L). by apply wheel_bit_set_nonzero. }
  split; [idtac | split]; intros Hd.
  - intros Hlow. simpl. by apply pollMouse_idle_wheel.
  - destruct (wheel_bit_set_matching buttons Hw) as [wk Hwk].
    exists wk. split; [assumption | idtac]. simpl.
    rewrite pollMouse_armed; try assumption.
    + by rewrite wheelKey_matching, Hwk.
    + apply reachable_button_recorded; try assumption. by rewrite Hd.
  - simpl. apply pollMouse_dragging; try assumption.
    apply reachable_button_recorded; try assumption. by rewrite Hd.
Qed.

(** C3 (what the driver does): a raw error event is none of the types
    the type switch of [pollEvent] names; it takes the default case,
    which returns [GocuiEvent{Type: eventNone}] with a nil [Err] and
    leaves the package-level variables alone.  The event type
    [eventError] and the field [Err], declared for it, are not used: the
    cause is lost. *)
Theorem error_event_yields_none (g : Globals) (cause : error) :
  pollEvent g (EventError cause) = (g, GocuiEvent_of_type eventNone)
  /\ Err (pollEvent g (EventError cause)).2 = None.
Proof. split; reflexivity. Qed.

(** Events during which some bit of the mask is set, in the Dragging phase
    with a button recorded: each is reported as the drag event. *)
Lemma pollEvents_dragging tevs : forall g,
  TcellLaws ->
  dragState g = DRAGGING ->
  lastMouseKey g <> tcell_ButtonNone ->
  Forall primary_held_event tevs ->
  pollEvents g tevs = (g, map drag_report tevs).
Proof.
  induction tevs as [|tev tevs IH]; intros g L Hd Hk Hall; [reflexivity|].
  inversion Hall as [|? ? Hheld Hrest]; subst.
  destruct tev as [| | |x y buttons mods| |]; try contradiction.
  rewrite pollEvents_cons. simpl.
  rewrite pollMouse_dragging; try assumption.
  - simpl. by rewrite IH.
  - rewrite (ButtonNone_zero L). exact (has_bits_nonzero _ _ Hheld).
Qed.



(** C5: a key event carrying the space rune yields, without modifiers, a
    key event with key code 32 and no rune, and, with exactly the Ctrl
    modifier, a key event with key [tcell.KeyCtrlSpace], no modifier and
    no rune. *)
Theorem space_key (g : Globals) :
  TcellLaws ->
  pollEvent g (EventKey tcell_KeyRune 32 tcell_ModNone) =
    (g, mkGocuiEvent eventKey 0 32 0 0 0 None 0 0 0)
  /\ pollEvent g (EventKey tcell_KeyRune 32 tcell_ModCtrl) =
       (g, mkGocuiEvent eventKey 0 tcell_KeyCtrlSpace 0 0 0 None 0 0 0).
Proof.
  intros L. simpl. unfold pollKey. rewrite !Z.eqb_refl. simpl.
  rewrite (ModNone_zero L).
  pose proof (ModCtrl_nonzero L) as Hc.
  split; [idtac | reflexivity].
  destruct (Z.eqb_spec 0 tcell_ModCtrl) as [E|_]; [congruence | idtac].
  destruct (0 =? tcell_ModShift); reflexivity.
Qed.

(** C10: after any sequence of calls of [pollEvent] from the initial
    state, the drag state differs from [NOT_DRAGGING] exactly when the
    recorded button is the primary one; and a mouse event whose buttons are
    the secondary or the middle one leaves a [NOT_DRAGGING] state
    [NOT_DRAGGING]. *)
Theorem drag_state_tracks_primary_button
    (tevs : list tcellEvent) (x y buttons mods : Z) :
  TcellLaws ->
  let g := (pollEvents initGlobals tevs).1 in
  drag_inv g
  /\ (Z.land buttons 255 = tcell_ButtonSecondary
        \/ Z.land buttons 255 = tcell_ButtonMiddle ->
      dragState g = NOT_DRAGGING ->
      dragState (pollEvent g (EventMouse x y buttons mods)).1 = NOT_DRAGGING).
Proof.
  intros L g. split.
  - apply drag_inv_pollEvents; [assumption|]. by apply drag_inv_init.
  - clearbody g. intros Hb Hd. simpl.
    assert (Hnp : Z.land buttons 255 <> tcell_ButtonPrimary).
    { pose proof (ButtonSecondary_not_primary L).
      pose proof (ButtonMiddle_not_primary L).
      destruct Hb; congruence. }
    unfold pollMouse.
    pose proof (pressStep_not_primary g x y (Z.land buttons 255) mods
                  (wheelKey buttons MouseRelease) Hnp) as H1.
    destruct (pressStep _ _ _ _ _ _) as [g1 k1]. simpl in H1.
    rewrite Hd in H1.
    pose proof (releaseStep_idle g1 buttons ModNone H1) as H2.
    destruct (releaseStep _ _ _) as [g2 m2]. simpl in H2.
    rewrite H2. simpl. exact H2.
Qed.

End TranslatorFacts.

(** ** More of the event translator *)

Section GestureFacts.
Context {tc : Tcell} {gc : Gocui}.

Lemma pollMouse_dragSwitch g x y buttons mods :
  pollMouse g x y buttons mods =
    dragSwitch
      (releaseStep
         (pressStep g x y (Z.land buttons 255) mods
            (wheelKey buttons MouseRelease)).1 buttons ModNone).1
      x y
      (pressStep g x y (Z.land buttons 255) mods
         (wheelKey buttons MouseRelease)).2
      (releaseStep
         (pressStep g x y (Z.land buttons 255) mods
            (wheelKey buttons MouseRelease)).1 buttons ModNone).2.
Proof.
  unfold pollMouse, dragSwitch.
  destruct (pressStep _ _ _ _ _ _) as [g1 k1]. simpl.
  destruct (releaseStep _ _ _) as [g2 m2]. reflexivity.
Qed.

(** What the drag switch returns: nothing in the Idle phase; otherwise a
    mouse event at the position given, with the key and modifier it was
    handed or those of a drag, the state changing at most from Armed to
    Dragging. *)
Lemma dragSwitch_cases g x y k m :
  (dragState g = NOT_DRAGGING
   /\ dragSwitch g x y k m = (g, GocuiEvent_of_type eventNone))
  \/ (dragState g <> NOT_DRAGGING
      /\ exists g' k' m',
           dragSwitch g x y k m = (g', mouseEvent k' m' x y)
           /\ (k' = k \/ k' = MouseLeft) /\ (m' = m \/ m' = ModMotion)
           /\ dragState g' <> NOT_DRAGGING
           /\ (g' = g \/
               dragState g = MAYBE_DRAGGING /\ (x <> lastX g \/ y <> lastY g)
               /\ g' = set_dragState DRAGGING g)).
Proof.
  unfold dragSwitch, NOT_DRAGGING, MAYBE_DRAGGING, DRAGGING.
  destruct (Z.eqb_spec (dragState g) 0) as [E0|N0]; [left; done | right].
  split; [assumption | idtac].
  destruct (Z.eqb_spec (dragState g) 1) as [E1|N1].
  - destruct (Z.eqb_spec x (lastX g)) as [Ex|Nx];
      destruct (Z.eqb_spec y (lastY g)) as [Ey|Ny]; simpl;
      eexists _, _, _; (split; [reflexivity | idtac]);
      repeat split; try (left; reflexivity); try assumption;
      try (simpl; lia); right; repeat split; auto.
  - destruct (Z.eqb_spec (dragState g) 2) as [E2|N2];
      eexists _, _, _; (split; [reflexivity | idtac]);
      repeat split; auto.
Qed.

(** The press block hands on the key it was given or [MouseLeft], unless
    it leaves the phase Idle. *)
Lemma pressStep_key g x y button mods k :
  TcellLaws -> drag_inv g ->
  (pressStep g x y button mods k).2 = k
  \/ (pressStep g x y button mods k).2 = MouseLeft
  \/ dragState (pressStep g x y button mods k).1 = NOT_DRAGGING.
Proof.
  intros L. unfold drag_inv.
  pose proof (ButtonNone_zero L). pose proof (ButtonPrimary_nonzero L).
  unfold pressStep, NOT_DRAGGING.
  destruct g as [lk lm ds lx ly]; simpl.
  repeat (case Z.eqb_spec; simpl; intros); auto; right; right; lia.
Qed.

(** The release block hands on the modifier it was given, unless it
    leaves the phase Idle. *)
Lemma releaseStep_mod g buttons mouseMod :
  TcellLaws -> drag_inv g ->
  (releaseStep g buttons mouseMod).2 = mouseMod
  \/ dragState (releaseStep g buttons mouseMod).1 = NOT_DRAGGING.
Proof.
  intros L. unfold drag_inv.
  pose proof (ButtonNone_zero L). pose proof (ButtonPrimary_nonzero L).
  unfold releaseStep, NOT_DRAGGING.
  destruct g as [lk lm ds lx ly]; simpl.
  repeat (case Z.eqb_spec; simpl; intros); auto; right; lia.
Qed.

(** X2: in a reachable state a mouse event is reported exactly when,
    after the call, the recorded button is the primary one; every other
    raw mouse event is answered by [GocuiEvent{Type: eventNone}]. *)
Theorem mouse_reported_iff_primary_recorded
    (g : Globals) (x y buttons mods : Z) :
  TcellLaws ->
  reachable g ->
  (Type' (pollEvent g (EventMouse x y buttons mods)).2 = eventMouse
   \/ (pollEvent g (EventMouse x y buttons mods)).2 = GocuiEvent_of_type eventNone)
  /\ (Type' (pollEvent g (EventMouse x y buttons mods)).2 = eventMouse <->
      lastMouseKey (pollEvent g (EventMouse x y buttons mods)).1
        = tcell_ButtonPrimary).
Proof.
  intros L Hr.
  pose proof (drag_inv_pollMouse g x y buttons mods L
                (reachable_drag_inv g L Hr)) as Hinv.
  simpl. revert Hinv. rewrite pollMouse_dragSwitch.
  set (g2 := (releaseStep _ _ _).1). set (k := (pressStep _ _ _ _ _ _).2).
  set (m := (releaseStep _ _ _).2).
  unfold drag_inv.
  destruct (dragSwitch_cases g2 x y k m)
    as [[Hd ->] | [Hd (g' & k' & m' & -> & _ & _ & Hd' & _)]]; simpl;
    intros Hinv.
  - split; [right; reflexivity | idtac].
    split; [discriminate | idtac]. intros Hk. apply Hinv in Hk. contradiction.
  - split; [left; reflexivity | idtac].
    split; [intros _; by apply Hinv | reflexivity].
Qed.

(** X3: in a reachable state every mouse event reported has the key
    [MouseLeft] or the key computed from the wheel bits ([MouseRelease]
    without any), and the modifier [ModNone] or [ModMotion]: the keys
    [MouseRight] and [MouseMiddle] assigned by the press block and the
    modifiers recorded at press time are never reported. *)
Theorem reported_key_and_modifier (g : Globals) (x y buttons mods : Z) :
  TcellLaws ->
  reachable g ->
  Type' (pollEvent g (EventMouse x y buttons mods)).2 = eventMouse ->
  (Key (pollEvent g (EventMouse x y buttons mods)).2 = MouseLeft
   \/ Key (pollEvent g (EventMouse x y buttons mods)).2
        = default MouseRelease (matchingWheelKey buttons))
  /\ (Mod (pollEvent g (EventMouse x y buttons mods)).2 = ModNone
      \/ Mod (pollEvent g (EventMouse x y buttons mods)).2 = ModMotion).
Proof.
  intros L Hr. simpl. rewrite pollMouse_dragSwitch.
  pose proof (reachable_drag_inv g L Hr) as Hg.
  pose proof (pressStep_key g x y (Z.land buttons 255) mods
                (wheelKey buttons MouseRelease) L Hg) as Hk.
  pose proof (drag_inv_pressStep g x y (Z.land buttons 255) mods
                (wheelKey buttons MouseRelease) L Hg) as Hg1.
  set (p := pressStep g x y (Z.land buttons 255) mods
              (wheelKey buttons MouseRelease)) in *.
  pose proof (releaseStep_mod p.1 buttons ModNone L Hg1) as Hm.
  pose proof (releaseStep_idle p.1 buttons ModNone) as Hidle.
  set (r := releaseStep p.1 buttons ModNone) in *.
  destruct (dragSwitch_cases r.1 x y p.2 r.2)
    as [[Hd ->] | [Hd (g' & k' & m' & -> & Hk' & Hm' & _)]]; simpl;
    [discriminate | intros _].
  rewrite <- wheelKey_matching. split.
  - destruct Hk' as [->| ->]; [idtac | by left].
    destruct Hk as [->|[->|Hnot]]; [by right | by left | idtac].
    apply Hidle in Hnot. contradiction.
  - destruct Hm' as [->| ->]; [idtac | by right].
    destruct Hm as [->|Hnot]; [by left | contradiction].
Qed.

(** *** Presses of other buttons, held buttons, empty masks *)

(** A press that is not exactly the primary button, in the Idle phase
    with no button recorded: the button and the modifiers are recorded
    and nothing is reported. *)
Lemma pollMouse_press_other g x y buttons mods :
  TcellLaws ->
  dragState g = NOT_DRAGGING ->
  lastMouseKey g = tcell_ButtonNone ->
  Z.land buttons 255 <> tcell_ButtonNone ->
  Z.land buttons 255 <> tcell_ButtonPrimary ->
  pollMouse g x y buttons mods =
    (set_lastMouseMod mods (set_lastMouseKey (Z.land buttons 255) g),
     GocuiEvent_of_type eventNone).
Proof.
  intros L Hd Hk Hnone Hprim.
  assert (Hb : buttons <> tcell_ButtonNone).
  { rewrite (ButtonNone_zero L) in *. intros ->. by rewrite Z.land_0_l in Hnone. }
  unfold pollMouse, pressStep.
  apply Z.eqb_neq in Hnone, Hprim. rewrite Hnone, Hprim, Hk, Z.eqb_refl.
  cbn [negb andb].
  destruct (Z.land buttons 255 =? tcell_ButtonSecondary);
    [idtac | destruct (Z.land buttons 255 =? tcell_ButtonMiddle)];
    rewrite releaseStep_down by assumption;
    cbn [dragState set_lastMouseMod set_lastMouseKey];
    rewrite Hd; reflexivity.
Qed.

Lemma gesture_wf_init : gesture_wf initGlobals.
Proof. split; [by left | reflexivity]. Qed.

Lemma gesture_wf_pollMouse g x y buttons mods :
  gesture_wf g -> gesture_wf (pollMouse g x y buttons mods).1.
Proof.
  unfold gesture_wf, pollMouse, pressStep, releaseStep,
    NOT_DRAGGING, MAYBE_DRAGGING, DRAGGING.
  generalize (wheelKey buttons MouseRelease). intros k.
  destruct g as [lk lm ds lx ly]; simpl. intros [Hrange Hmod].
  destruct (Z.eqb_spec (Z.land buttons 255) tcell_ButtonNone);
    destruct (Z.eqb_spec lk tcell_ButtonNone);
    destruct (Z.eqb_spec (Z.land buttons 255) tcell_ButtonPrimary);
    destruct (Z.eqb_spec (Z.land buttons 255) tcell_ButtonSecondary);
    destruct (Z.eqb_spec (Z.land buttons 255) tcell_ButtonMiddle);
    destruct (Z.eqb_spec buttons tcell_ButtonNone);
    simpl;
    repeat (case Z.eqb_spec; simpl; intros);
    try (destruct (negb _ || negb _); simpl);
    split; try lia; intros; try lia; try congruence; auto.
Qed.

Lemma gesture_wf_pollEvents tevs : forall g,
  gesture_wf g -> gesture_wf (pollEvents g tevs).1.
Proof.
  induction tevs as [|tev tevs IH]; intros g Hg; [assumption | idtac].
  rewrite pollEvents_cons. simpl. apply IH.
  destruct tev; simpl; try assumption. by apply gesture_wf_pollMouse.
Qed.

(** An event with an empty mask, in a state that satisfies the two
    invariants. *)
Lemma pollMouse_no_buttons g x y mods :
  TcellLaws -> drag_inv g -> gesture_wf g ->
  pollMouse g x y tcell_ButtonNone mods =
    (idleGlobals (lastX g) (lastY g), GocuiEvent_of_type eventNone).
Proof.
  intros L Hinv [_ Hmod].
  pose proof (ButtonNone_zero L) as H0.
  pose proof (ButtonPrimary_nonzero L) as Hp.
  rewrite pollMouse_dragSwitch. unfold pressStep.
  assert (Hlow : Z.land tcell_ButtonNone 255 = tcell_ButtonNone).
  { rewrite H0. reflexivity. }
  rewrite Hlow, Z.eqb_refl. cbn [negb andb fst snd].
  unfold releaseStep, dragSwitch, idleGlobals. rewrite Z.eqb_refl.
  revert Hinv Hmod. unfold drag_inv, NOT_DRAGGING.
  destruct g as [lk lm ds lx ly]; simpl. intros Hinv Hmod.
  destruct (Z.eqb_spec lk tcell_ButtonNone) as [E|N]; simpl.
  - assert (ds = 0) as -> by lia. rewrite Hmod by assumption.
    rewrite E. reflexivity.
  - destruct (Z.eqb_spec lk tcell_ButtonPrimary) as [E1|N1]; simpl;
      [reflexivity | idtac].
    assert (ds = 0) as -> by lia. reflexivity.
Qed.

(** X4: a press whose button bits are not exactly the primary button
    (the secondary or the middle button, or several buttons at once),
    made in a reachable state with no button recorded, is recorded but
    not reported, and neither is the release that follows: both calls
    return [GocuiEvent{Type: eventNone}], and the state is Idle again. *)
Theorem other_buttons_are_silent
    (g : Globals) (x y buttons mods x' y' mods' : Z) :
  TcellLaws ->
  reachable g ->
  lastMouseKey g = tcell_ButtonNone ->
  Z.land buttons 255 <> tcell_ButtonNone ->
  Z.land buttons 255 <> tcell_ButtonPrimary ->
  lastMouseKey (pollEvent g (EventMouse x y buttons mods)).1
    = Z.land buttons 255
  /\ pollEvents g [EventMouse x y buttons mods;
                   EventMouse x' y' tcell_ButtonNone mods'] =
       (idleGlobals (lastX g) (lastY g),
        [GocuiEvent_of_type eventNone; GocuiEvent_of_type eventNone]).
Proof.
  intros L Hr Hk Hnone Hprim.
  pose proof (reachable_drag_inv g L Hr) as Hinv.
  assert (Hd : dragState g = NOT_DRAGGING).
  { pose proof (ButtonNone_zero L). pose proof (ButtonPrimary_nonzero L).
    unfold drag_inv, NOT_DRAGGING in *. lia. }
  assert (Hwf : gesture_wf g).
  { destruct Hr as [tevs ->]. apply gesture_wf_pollEvents, gesture_wf_init. }
  pose proof (drag_inv_pollMouse g x y buttons mods L Hinv) as Hinv1.
  pose proof (gesture_wf_pollMouse g x y buttons mods Hwf) as Hwf1.
  rewrite !pollEvents_cons. simpl.
  rewrite (pollMouse_press_other g x y buttons mods) in * by assumption.
  simpl in *. split; [reflexivity | idtac].
  rewrite pollMouse_no_buttons by assumption. reflexivity.
Qed.

(** X5: while a button is recorded and the raw mask is not empty, no
    press is recorded: the recorded button, its modifiers and the
    reference position stay, and the only change of state is the step
    from Armed to Dragging at another position. *)
Theorem held_button_masks_presses (g : Globals) (x y buttons mods : Z) :
  lastMouseKey g <> tcell_ButtonNone ->
  buttons <> tcell_ButtonNone ->
  (pollEvent g (EventMouse x y buttons mods)).1 = g
  \/ (dragState g = MAYBE_DRAGGING /\ (x <> lastX g \/ y <> lastY g)
      /\ (pollEvent g (EventMouse x y buttons mods)).1
           = set_dragState DRAGGING g).
Proof.
  intros Hk Hb. simpl. rewrite pollMouse_dragSwitch.
  rewrite pressStep_held by assumption. cbn [fst snd].
  rewrite releaseStep_down by assumption. cbn [fst snd].
  destruct (dragSwitch_cases g x y (wheelKey buttons MouseRelease) ModNone)
    as [[_ ->] | [_ (g' & k' & m' & -> & _ & _ & _ & [->|(Hd & Hpos & ->)])]];
    simpl; auto.
Qed.

(** X6: in a reachable state a raw mouse event with an empty button mask
    (a release, or motion with no button down) is never reported: the
    call returns [GocuiEvent{Type: eventNone}] and leaves no button and
    no modifier recorded and the drag state [NOT_DRAGGING]; only the
    reference position stays. *)
Theorem empty_mask_resets_gesture (g : Globals) (x y mods : Z) :
  TcellLaws ->
  reachable g ->
  pollEvent g (EventMouse x y tcell_ButtonNone mods) =
    (idleGlobals (lastX g) (lastY g), GocuiEvent_of_type eventNone).
Proof.
  intros L Hr. simpl. apply pollMouse_no_buttons; [assumption | idtac | idtac].
  - by apply reachable_drag_inv.
  - destruct Hr as [tevs ->]. apply gesture_wf_pollEvents, gesture_wf_init.
Qed.

(** X7: after any sequence of calls from the initial values the drag
    state is one of [NOT_DRAGGING], [MAYBE_DRAGGING] and [DRAGGING], and
    modifiers are recorded only together with a button. *)
Theorem reachable_states_are_well_formed (tevs : list tcellEvent) :
  gesture_wf (pollEvents initGlobals tevs).1.
Proof. apply gesture_wf_pollEvents, gesture_wf_init. Qed.

(** *** Whole event streams *)

Lemma pollEvents_app tevs1 : forall g tevs2,
  pollEvents g (tevs1 ++ tevs2) =
    ((pollEvents (pollEvents g tevs1).1 tevs2).1,
     (pollEvents g tevs1).2 ++ (pollEvents (pollEvents g tevs1).1 tevs2).2).
Proof.
  induction tevs1 as [|tev tevs1 IH]; intros g tevs2.
  - simpl. by destruct (pollEvents g tevs2).
  - rewrite <- app_comm_cons, !pollEvents_cons, IH. reflexivity.
Qed.

(** Events that are not mouse events leave the package-level variables
    alone. *)
Lemma pollEvent_not_mouse g tev :
  is_mouse tev = false -> (pollEvent g tev).1 = g.
Proof. destruct tev; simpl; intros H; try reflexivity. discriminate H. Qed.

(** X8: key, resize, interrupt and unrecognized events that arrive in
    the middle of a gesture do not disturb it: the final state, and the
    answer to every raw mouse event, are those of the stream with the
    other events removed. *)
Theorem other_events_do_not_disturb_gesture
    (g : Globals) (tevs : list tcellEvent) :
  (pollEvents g tevs).1
    = (pollEvents g (filter (fun tev => is_mouse tev = true) tevs)).1
  /\ filter (fun p => is_mouse p.1 = true) (answered g tevs)
     = answered g (filter (fun tev => is_mouse tev = true) tevs).
Proof.
  unfold answered. revert g.
  induction tevs as [|tev tevs IH]; intros g; [by split | idtac].
  rewrite pollEvents_cons. cbn [fst snd zip zip_with].
  destruct (is_mouse tev) eqn:Hm.
  - rewrite (filter_cons_True _ tev) by assumption.
    rewrite pollEvents_cons. cbn [fst snd zip zip_with].
    rewrite filter_cons_True by assumption.
    destruct (IH (pollEvent g tev).1) as [IH1 IH2].
    split; [assumption | by rewrite IH2].
  - rewrite (filter_cons_False _ tev) by (rewrite Hm; discriminate).
    rewrite filter_cons_False by (simpl; rewrite Hm; discriminate).
    rewrite pollEvent_not_mouse by assumption. apply IH.
Qed.

(** X9: the key event returned for a raw key event.  At most one of
    [Key] and [Ch] is set, and [Ch] only for a [KeyRune] event, to its
    rune; a modifier mask that is exactly Ctrl or exactly Shift is
    cleared and every other mask is passed on; the key code is the raw
    one except for [KeyRune] events and for Ctrl with code 32. *)
Theorem key_event_normal_form (g : Globals) (key rune mods : Z) :
  let ev := (pollEvent g (EventKey key rune mods)).2 in
  (pollEvent g (EventKey key rune mods)).1 = g
  /\ Type' ev = eventKey
  /\ (Key ev = 0 \/ Ch ev = 0)
  /\ (Ch ev = 0 \/ key = tcell_KeyRune /\ rune <> 32 /\ Ch ev = rune)
  /\ Mod ev = (if (mods =? tcell_ModCtrl) || (mods =? tcell_ModShift)
               then 0 else mods)
  /\ (Key ev = key \/ key = tcell_KeyRune
      \/ mods = tcell_ModCtrl /\ key = 32 /\ Key ev = tcell_KeyCtrlSpace).
Proof.
  simpl. unfold pollKey.
  destruct (Z.eqb_spec key tcell_KeyRune) as [Ek|Nk];
    [destruct (Z.eqb_spec rune 32) as [Er|Nr] | idtac];
    destruct (Z.eqb_spec mods tcell_ModCtrl) as [Ec|Nc];
    try destruct (Z.eqb_spec key 32) as [E32|N32];
    destruct (Z.eqb_spec mods tcell_ModShift) as [Es|Ns];
    cbn; repeat split; auto; try (right; right; done).
Qed.

(** X10: the type of the event returned tells which fields are set.  An
    event of type [eventNone] or [eventInterrupt] has no field set; a
    resize event carries the size of the raw resize event and nothing
    else; a key event comes from a raw key event and sets only [Mod],
    [Key] and [Ch]; a mouse event comes from a raw mouse event, is at its
    position and sets only [Mod] and [Key] besides; the types
    [eventError] and [eventRaw] are never returned, and [Err] is always
    nil. *)
Theorem returned_event_shape (g : Globals) (tev : tcellEvent) :
  Err (pollEvent g tev).2 = None
  /\ match Type' (pollEvent g tev).2 with
     | eventNone => (pollEvent g tev).2 = GocuiEvent_of_type eventNone
     | eventInterrupt =>
         tev = EventInterrupt
         /\ (pollEvent g tev).2 = GocuiEvent_of_type eventInterrupt
     | eventResize =>
         exists w h, tev = EventResize w h
           /\ (pollEvent g tev).2 = mkGocuiEvent eventResize 0 0 0 w h None 0 0 0
     | eventKey =>
         exists key rune mods k ch m, tev = EventKey key rune mods
           /\ (pollEvent g tev).2 = mkGocuiEvent eventKey m k ch 0 0 None 0 0 0
     | eventMouse =>
         exists x y buttons mods k m, tev = EventMouse x y buttons mods
           /\ (pollEvent g tev).2 = mouseEvent k m x y
     | eventError | eventRaw => False
     end.
Proof.
  destruct tev as [|w h|key rune mods|x y buttons mods|cause|]; simpl;
    try (split; [reflexivity | idtac]); eauto.
  - unfold pollKey.
    destruct (key =? tcell_KeyRune); [destruct (rune =? 32) | idtac];
      destruct (_ && _); try destruct (_ || _); cbn;
      (split; [reflexivity | eauto 10]).
  - rewrite pollMouse_dragSwitch.
    match goal with
    | |- context [dragSwitch ?g2 x y ?k ?m] =>
        destruct (dragSwitch_cases g2 x y k m)
          as [[_ ->] | [_ (g' & k' & m' & -> & _)]]
    end; simpl; (split; [reflexivity | eauto 10]).
Qed.

Lemma wheelKey_no_wheel buttons k :
  wheel_bit_set buttons = false -> wheelKey buttons k = k.
Proof.
  unfold wheel_bit_set, wheelKey. rewrite !orb_false_iff.
  intros [[[-> ->] ->] ->]. reflexivity.
Qed.

(** X11: a whole drag.  The primary button goes down while no button is
    recorded, moves to another position, moves on with the button down,
    and comes up.  The press is reported with key [MouseLeft]; the first
    event elsewhere, which starts the drag, is still reported with the
    default key [MouseRelease] and no modifier; the later ones are drag
    events; the release is not reported and leaves the state Idle, with
    the press position as reference position. *)
Theorem drag_gesture
    (g : Globals) (x y mods x' y' buttons' mods' x'' y'' mods'' : Z)
    (tevs : list tcellEvent) :
  TcellLaws ->
  lastMouseKey g = tcell_ButtonNone ->
  x' <> x \/ y' <> y ->
  primary_held buttons' ->
  wheel_bit_set buttons' = false ->
  Forall primary_held_event tevs ->
  pollEvents g
    (EventMouse x y tcell_ButtonPrimary mods
     :: EventMouse x' y' buttons' mods'
     :: tevs ++ [EventMouse x'' y'' tcell_ButtonNone mods'']) =
    (idleGlobals x y,
     mouseEvent MouseLeft ModNone x y
     :: mouseEvent MouseRelease ModNone x' y'
     :: map drag_report tevs ++ [GocuiEvent_of_type eventNone]).
Proof.
  intros L Hk Hpos Hheld Hnw Hall.
  assert (Hp : tcell_ButtonPrimary <> tcell_ButtonNone).
  { rewrite (ButtonNone_zero L). apply (ButtonPrimary_nonzero L). }
  rewrite pollEvents_cons. cbn [pollEvent].
  rewrite (pollMouse_press_primary g x y mods L Hk). cbn [fst snd].
  rewrite pollEvents_cons. cbn [pollEvent].
  rewrite pollMouse_armed; try done.
  2: { rewrite (ButtonNone_zero L). exact (has_bits_nonzero _ _ Hheld). }
  cbn [fst snd lastX lastY].
  assert (Hxy : (x' =? x) && (y' =? y) = false).
  { apply andb_false_iff. rewrite !Z.eqb_neq. tauto. }
  rewrite Hxy, wheelKey_no_wheel by assumption.
  rewrite pollEvents_app.
  rewrite (pollEvents_dragging tevs) by done. cbn [fst snd].
  rewrite pollEvents_cons. cbn [pollEvent pollEvents fst snd].
  rewrite pollMouse_release_primary by done. reflexivity.
Qed.

End GestureFacts.

(** *** The driver on concrete events

    From here on the constants are those of [sample_tcell] and
    [sample_gocui]. *)

#[local] Existing Instance sample_tcell.
#[local] Existing Instance sample_gocui.

(** C1, on a concrete click: the primary button (mask 1) goes down at
    (3, 4) with modifier mask 4 and comes up at the same place; the press
    is reported, the release is answered by the event of type
    [eventNone]. *)
Lemma primary_click_release_sample :
  dragState (pollEvent initGlobals
               (EventMouse 3 4 1 4)).1 = MAYBE_DRAGGING
  /\ pollEvents initGlobals
       [EventMouse 3 4 1 4; EventMouse 3 4 0 0] =
     (mkGlobals 0 0 NOT_DRAGGING 3 4,
      [mkGocuiEvent eventMouse 0 341 0 0 0 None 3 4 0;
       GocuiEvent_of_type eventNone]).
Proof.
  refine (primary_click_release_is_dropped initGlobals 3 4 4 0 _ _);
    [sample_laws | reflexivity].
Defined.

(** C1, as the specification states it, fails on that click: the two
    events returned are not a press with key [MouseLeft] followed by a
    mouse event with key [MouseRelease] and the modifiers of the press. *)
Lemma click_release_is_not_reported :
  ~ (exists ev1 ev2 : GocuiEvent,
       (pollEvents initGlobals [EventMouse 3 4 1 4; EventMouse 3 4 0 0]).2
         = [ev1; ev2]
       /\ Type' ev1 = eventMouse /\ Key ev1 = MouseLeft
       /\ Type' ev2 = eventMouse /\ Key ev2 = MouseRelease /\ Mod ev2 = 4).
Proof.
  intros (ev1 & ev2 & Hevs & _ & _ & Hty & _).
  vm_compute in Hevs. inversion Hevs; subst. discriminate Hty.
Qed.

(** C2, on concrete events: in the initial state a wheel-up event (mask
    256) at (5, 5) is answered by the event of type [eventNone]. *)
Lemma wheel_event_idle_sample :
  pollEvent initGlobals (EventMouse 5 5 256 0) =
    (initGlobals, GocuiEvent_of_type eventNone).
Proof.
  refine (proj1 (wheel_event_by_phase initGlobals 5 5 256 0 _ _ _) _ _);
    [sample_laws | exists []; reflexivity | reflexivity | reflexivity
    | reflexivity].
Defined.

(** What the specification states of wheel events fails in each phase:
    in the initial state a wheel-up event yields no mouse event; with the
    primary button held at (0, 0) a wheel-up event at (1, 0) changes the
    drag state; while a drag runs a wheel-up event is reported with key
    [MouseLeft]. *)
Lemma wheel_event_is_not_passed_through :
  ~ wheel_passes_through initGlobals 5 5 256 0
  /\ ~ wheel_passes_through
        (pollEvents initGlobals [EventMouse 0 0 1 0]).1 1 0 256 0
  /\ ~ wheel_passes_through
        (pollEvents initGlobals [EventMouse 0 0 1 0; EventMouse 1 0 1 0]).1
        2 0 256 0.
Proof.
  repeat split; vm_compute.
  - intros (Hty & _). discriminate Hty.
  - intros (_ & _ & Hds). discriminate Hds.
  - intros (_ & Hkey & _). discriminate Hkey.
Qed.

(** C3, as the specification states it, fails: a raw error event does not
    come back as an event of type [eventError] carrying its cause. *)
Lemma error_event_is_not_passed :
  ~ (Type' (pollEvent initGlobals
              (EventError "read failed")).2 = eventError
     /\ Err (pollEvent initGlobals
               (EventError "read failed")).2 = Some "read failed"%string).
Proof. simpl. intros [H _]. discriminate H. Qed.



(** C5, on the sample constants: space, and Ctrl with space. *)
Lemma space_key_sample :
  pollEvent initGlobals
    (EventKey 256 32 0) =
    (initGlobals, mkGocuiEvent eventKey 0 32 0 0 0 None 0 0 0)
  /\ pollEvent initGlobals
       (EventKey 256 32 2) =
       (initGlobals, mkGocuiEvent eventKey 0 0 0 0 0 None 0 0 0).
Proof.
  refine (space_key initGlobals _).
  sample_laws.
Defined.


(** C7, on the sample constants, whose attribute masks are distinct
    bits: bold and italic set on the default style. *)
Lemma flag_application_sample :
  style_flags
    (setTcellFontEffectStyle StyleDefault
       (attrOfFlags (elements ({[FlagBold; FlagItalic]} : gset StyleFlag))))
  = {[FlagBold; FlagItalic]}.
Proof.
  refine (proj2 (proj2 (proj2 (proj2 (proj2 (proj2
            (flag_application_is_set_union StyleDefault 0 _))))) _)).
  intros f g; destruct f, g; vm_compute; split; congruence.
Defined.

(** C10, on concrete events: after a click of the primary button the
    invariant holds, and a secondary-button press (mask 2) leaves the
    state [NOT_DRAGGING]. *)
Lemma drag_state_tracks_primary_button_sample :
  drag_inv
    (pollEvents initGlobals [EventMouse 3 4 1 0; EventMouse 3 4 0 0]).1
  /\ (Z.land 2 255 = 2 \/ Z.land 2 255 = 4 ->
      dragState
        (pollEvents initGlobals [EventMouse 3 4 1 0; EventMouse 3 4 0 0]).1
        = NOT_DRAGGING ->
      dragState
        (pollEvent
           (pollEvents initGlobals [EventMouse 3 4 1 0; EventMouse 3 4 0 0]).1
           (EventMouse 0 0 2 0)).1 = NOT_DRAGGING).
Proof.
  refine (drag_state_tracks_primary_button
            [EventMouse 3 4 1 0; EventMouse 3 4 0 0] 0 0 2 0 _).
  sample_laws.
Defined.

(** ** The candidate extractor *)

Section ExtractorFacts.
Import Extractor.
Local Open Scope string_scope.

(** With no label template, every candidate of a successful extraction
    has its rendered value as label, the value being the value template
    rendered against the context of a matching line. *)
Lemma extractLines_no_label re valueT ls : forall cs,
  extractLines re valueT None ls = Ok cs ->
  Forall (fun c =>
            label c = value c /\
            exists line caps,
              line ∈ ls /\ rfind re line = Some caps /\
              render (context (groups re) caps) valueT = Some (value c)) cs.
Proof.
  induction ls as [|line ls IH]; intros cs H; simpl in H.
  - inversion H. constructor.
  - destruct (rfind re line) as [caps|] eqn:Hfind.
    + unfold candidate in H.
      destruct (render (context (groups re) caps) valueT) as [v|] eqn:Hv;
        simpl in H; [idtac | discriminate].
      destruct (extractLines re valueT None ls) as [cs'|e] eqn:Hrest;
        simpl in H; [idtac | discriminate].
      inversion H; subst. constructor.
      * simpl. split; [reflexivity | idtac].
        exists line, caps. split; [set_solver | done].
      * eapply Forall_impl; [by apply IH | idtac].
        intros c (Hl & l' & caps' & Hin & Hf & Hr).
        split; [assumption | idtac]. exists l', caps'. set_solver.
    + eapply Forall_impl; [by apply IH | idtac].
      intros c (Hl & l' & caps' & Hin & Hf & Hr).
      split; [assumption | idtac]. exists l', caps'. set_solver.
Qed.

(** The context of the pattern of the scenarios binds the name and the
    positional key of each group to the same text. *)
Lemma named_and_positional_agree (caps : gmap nat string) (nm1 nm2 : string) :
  nm1 <> nm2 -> nm1 <> group_key 2 -> nm1 <> group_key 1 ->
  nm2 <> group_key 2 -> nm2 <> group_key 1 ->
  let ctx := context [(1%nat, Some nm1); (2%nat, Some nm2)] caps in
  ctx !! nm1 = ctx !! group_key 1 /\ ctx !! nm2 = ctx !! group_key 2
  /\ is_Some (ctx !! nm1) /\ is_Some (ctx !! nm2).
Proof.
  intros H12 H1a H1b H2a H2b. simpl.
  assert (group_key 1 <> group_key 2) by (vm_compute; congruence).
  repeat split; simplify_map_eq; eauto.
Qed.

(** *** References by name and by position *)













(** C9: when the label template is empty, every candidate of a
    successful extraction has as label its value, and that value is the
    value template rendered against the context of a match of the
    pattern in a line of the text. *)
Theorem empty_label_is_rendered_value
    (commandOutput filter valueFormat : string)
    (cands : list commandMenuEntry) :
  GenerateMenuCandidates commandOutput filter valueFormat "" = Ok cands ->
  exists re valueT,
    compile filter = Some re /\ template valueFormat = Some valueT /\
    Forall (fun c =>
              label c = value c /\
              exists line caps,
                line ∈ lines commandOutput /\ rfind re line = Some caps /\
                render (context (groups re) caps) valueT = Some (value c))
           cands.
Proof.
  unfold GenerateMenuCandidates. intros H.
  destruct (compile filter) as [re|]; simpl in H; [idtac | discriminate].
  destruct (template valueFormat) as [valueT|]; simpl in H;
    [idtac | discriminate].
  destruct (resolvable re valueT); simpl in H; [idtac | discriminate].
  exists re, valueT. repeat split. by apply extractLines_no_label.
Qed.

(** The third scenario of the test, and the two failures of section 4.3. *)
Example scenario_group_ids :
  GenerateMenuCandidates "upstream/pr-1" "(?P<remote>[a-z]*)/(?P<branch>.*)"
    "{{ .group_2 }}|{{ .group_1 }}" "Remote: {{ .group_1 }}"
    = Ok [mkEntry "Remote: upstream" "pr-1|upstream"].
Proof. vm_compute. reflexivity. Qed.

Example malformed_pattern :
  GenerateMenuCandidates "upstream/pr-1" "(?P<remote>[a-z]*/(?P<branch>.*)"
    "{{ .branch }}" "" = Fail PatternError.
Proof. vm_compute. reflexivity. Qed.

Example unresolvable_reference :
  GenerateMenuCandidates "upstream/pr-1" "(?P<remote>[a-z]*)/(?P<branch>.*)"
    "{{ .group_3 }}" "" = Fail TemplateError.
Proof. vm_compute. reflexivity. Qed.

(** C9, on the scenario of the test: both groups in the value template,
    no label template. *)
Lemma empty_label_sample :
  GenerateMenuCandidates "upstream/pr-1" "(?P<remote>[a-z]*)/(?P<branch>.*)"
    "{{ .branch }}|{{ .remote }}" ""
    = Ok [mkEntry "pr-1|upstream" "pr-1|upstream"]
  /\ exists re valueT,
       compile "(?P<remote>[a-z]*)/(?P<branch>.*)" = Some re /\
       template "{{ .branch }}|{{ .remote }}" = Some valueT /\
       Forall (fun c =>
                 label c = value c /\
                 exists line caps,
                   line ∈ lines "upstream/pr-1" /\ rfind re line = Some caps /\
                   render (context (groups re) caps) valueT = Some (value c))
              [mkEntry "pr-1|upstream" "pr-1|upstream"].
Proof.
  split; [vm_compute; reflexivity | idtac].
  refine (empty_label_is_rendered_value "upstream/pr-1"
            "(?P<remote>[a-z]*)/(?P<branch>.*)" "{{ .branch }}|{{ .remote }}"
            [mkEntry "pr-1|upstream" "pr-1|upstream"] _).
  vm_compute; reflexivity.
Defined.

End ExtractorFacts.

(** ** More of the driver on concrete events *)

(** X2, on the press of the primary button at (3, 4) in the initial
    state. *)
Lemma mouse_reported_sample :
  (Type' (pollEvent initGlobals (EventMouse 3 4 1 0)).2 = eventMouse
   \/ (pollEvent initGlobals (EventMouse 3 4 1 0)).2
        = GocuiEvent_of_type eventNone)
  /\ (Type' (pollEvent initGlobals (EventMouse 3 4 1 0)).2 = eventMouse <->
      lastMouseKey (pollEvent initGlobals (EventMouse 3 4 1 0)).1
        = tcell_ButtonPrimary).
Proof.
  refine (mouse_reported_iff_primary_recorded initGlobals 3 4 1 0 _ _);
    [sample_laws | exists []; reflexivity].
Defined.

(** X3, on the same press, made with modifier mask 4. *)
Lemma reported_key_and_modifier_sample :
  (Key (pollEvent initGlobals (EventMouse 3 4 1 4)).2 = MouseLeft
   \/ Key (pollEvent initGlobals (EventMouse 3 4 1 4)).2
        = default MouseRelease (matchingWheelKey 1))
  /\ (Mod (pollEvent initGlobals (EventMouse 3 4 1 4)).2 = ModNone
      \/ Mod (pollEvent initGlobals (EventMouse 3 4 1 4)).2 = ModMotion).
Proof.
  refine (reported_key_and_modifier initGlobals 3 4 1 4 _ _ _);
    [sample_laws | exists []; reflexivity | reflexivity].
Defined.

(** X4, on a click of the secondary button (mask 2) at (3, 4). *)
Lemma other_buttons_sample :
  lastMouseKey (pollEvent initGlobals (EventMouse 3 4 2 4)).1 = Z.land 2 255
  /\ pollEvents initGlobals [EventMouse 3 4 2 4; EventMouse 3 4 0 0] =
       (idleGlobals 0 0,
        [GocuiEvent_of_type eventNone; GocuiEvent_of_type eventNone]).
Proof.
  refine (other_buttons_are_silent initGlobals 3 4 2 4 3 4 0 _ _ _ _ _);
    [sample_laws | exists []; reflexivity | reflexivity
    | vm_compute; congruence | vm_compute; congruence].
Defined.

(** X5, on the secondary button going down at (5, 5) while the primary
    button, pressed at (0, 0), is held: the drag starts and nothing else
    changes. *)
Lemma held_button_sample :
  (pollEvent (mkGlobals 1 0 MAYBE_DRAGGING 0 0) (EventMouse 5 5 3 0)).1
    = mkGlobals 1 0 MAYBE_DRAGGING 0 0
  \/ (dragState (mkGlobals 1 0 MAYBE_DRAGGING 0 0) = MAYBE_DRAGGING
      /\ (5 <> lastX (mkGlobals 1 0 MAYBE_DRAGGING 0 0)
          \/ 5 <> lastY (mkGlobals 1 0 MAYBE_DRAGGING 0 0))
      /\ (pollEvent (mkGlobals 1 0 MAYBE_DRAGGING 0 0) (EventMouse 5 5 3 0)).1
           = set_dragState DRAGGING (mkGlobals 1 0 MAYBE_DRAGGING 0 0)).
Proof.
  refine (held_button_masks_presses
            (mkGlobals 1 0 MAYBE_DRAGGING 0 0) 5 5 3 0 _ _);
    vm_compute; congruence.
Defined.

(** X6, on the release that follows a press at (3, 4). *)
Lemma empty_mask_sample :
  pollEvent (mkGlobals 1 4 MAYBE_DRAGGING 3 4) (EventMouse 9 9 0 0) =
    (idleGlobals 3 4, GocuiEvent_of_type eventNone).
Proof.
  refine (empty_mask_resets_gesture
            (mkGlobals 1 4 MAYBE_DRAGGING 3 4) 9 9 0 _ _);
    [sample_laws | exists [EventMouse 3 4 1 4]; reflexivity].
Defined.

(** X11, on a drag from (0, 0) over (1, 0) and (2, 1) to (5, 7). *)
Lemma drag_gesture_sample :
  pollEvents initGlobals
    (EventMouse 0 0 1 0 :: EventMouse 1 0 1 0
     :: [EventMouse 2 1 1 0; EventMouse 5 7 1 0] ++ [EventMouse 5 7 0 0]) =
    (idleGlobals 0 0,
     mouseEvent MouseLeft ModNone 0 0
     :: mouseEvent MouseRelease ModNone 1 0
     :: map drag_report [EventMouse 2 1 1 0; EventMouse 5 7 1 0]
        ++ [GocuiEvent_of_type eventNone]).
Proof.
  refine (drag_gesture initGlobals 0 0 0 1 0 1 0 5 7 0
            [EventMouse 2 1 1 0; EventMouse 5 7 1 0] _ _ _ _ _ _);
    [sample_laws | reflexivity | left; lia | reflexivity | reflexivity
    | repeat constructor].
Defined.
